(** * openapi_to_k6: the OpenAPI-to-k6 script generator, embedded and verified

    The development follows [openapi_to_k6.py].  Python values coming out of
    the JSON/YAML loader are an inductive type, Python exceptions are an
    error monad, the generator object is a record threaded through the
    methods that read or mutate it, and the emitted script is a list of
    characters built exactly as the f-strings of the source build it.

    Modelling conventions:
    - text is ASCII: [str] is [list ascii]; [lower]/[upper] fold the letters
      A-Z/a-z and [\w] is [A-Za-z0-9_];
    - mapping keys are strings, as in a JSON document; a mapping is an
      association list in declaration order (Python dicts iterate in
      insertion order);
    - floating-point numbers are not part of the value type. *)

From Stdlib Require Import List Ascii String ZArith Bool Lia Arith.
From Stdlib Require Import Numbers.DecimalString Numbers.DecimalZ Numbers.DecimalNat.
Import ListNotations.
Open Scope string_scope.
Open Scope list_scope.

Set Implicit Arguments.

(* ================================================================= *)
(** ** Text *)

Module Text.

Definition str := list ascii.

Coercion list_ascii_of_string : string >-> list.
Arguments list_ascii_of_string : simpl never.

Definition nl : str := [ascii_of_nat 10].

Definition in_range (lo hi : nat) (c : ascii) : bool :=
  let n := nat_of_ascii c in Nat.leb lo n && Nat.leb n hi.

Definition is_upper (c : ascii) : bool := in_range 65 90 c.
Definition is_lower (c : ascii) : bool := in_range 97 122 c.
Definition is_digit (c : ascii) : bool := in_range 48 57 c.

(** [\w] of Python's [re] on ASCII text. *)
Definition is_word (c : ascii) : bool :=
  is_upper c || is_lower c || is_digit c || Ascii.eqb c "_".

Definition lower_char (c : ascii) : ascii :=
  if is_upper c then ascii_of_nat (nat_of_ascii c + 32) else c.
Definition upper_char (c : ascii) : ascii :=
  if is_lower c then ascii_of_nat (nat_of_ascii c - 32) else c.

(** [s.lower()] and [s.upper()]. *)
Definition lower (s : str) : str := map lower_char s.
Definition upper (s : str) : str := map upper_char s.

Fixpoint str_eqb (a b : str) : bool :=
  match a, b with
  | [], [] => true
  | x :: a', y :: b' => Ascii.eqb x y && str_eqb a' b'
  | _, _ => false
  end.

(** [s.startswith(p)]. *)
Fixpoint prefix_of (p s : str) : bool :=
  match p, s with
  | [], _ => true
  | x :: p', y :: s' => Ascii.eqb x y && prefix_of p' s'
  | _ :: _, [] => false
  end.

(** [sub in s] on two strings. *)
Fixpoint contains (sub s : str) : bool :=
  prefix_of sub s ||
  match s with
  | [] => false
  | _ :: s' => contains sub s'
  end.

(** [sep.join(parts)]. *)
Fixpoint join (sep : str) (parts : list str) : str :=
  match parts with
  | [] => []
  | [p] => p
  | p :: rest => p ++ sep ++ join sep rest
  end.

(** [s.replace(old, new)]: the occurrences of [old] are replaced from left
    to right without overlap; [skip] counts the characters of a replaced
    occurrence that are still to be passed over. *)
Fixpoint replace_go (old new : str) (skip : nat) (s : str) : str :=
  match s with
  | [] => []
  | c :: s' =>
      match skip with
      | S k => replace_go old new k s'
      | O =>
          if prefix_of old s
          then new ++ replace_go old new (List.length old - 1) s'
          else c :: replace_go old new 0 s'
      end
  end.

Definition replace (old new s : str) : str :=
  match old with
  | [] => new ++ flat_map (fun c => c :: new) s
  | _ :: _ => replace_go old new 0 s
  end.

(** [s.split(sep)] for a one-character separator. *)
Fixpoint split_char (sep : ascii) (s : str) : list str :=
  match s with
  | [] => [[]]
  | c :: s' =>
      if Ascii.eqb c sep then [] :: split_char sep s'
      else match split_char sep s' with
           | [] => [[c]]
           | p :: ps => (c :: p) :: ps
           end
  end.

(** [str(n)] for a machine-independent integer. *)
Definition str_of_nat (n : nat) : str := NilZero.string_of_uint (Nat.to_uint n).
Definition str_of_Z (z : Z) : str := NilZero.string_of_int (Z.to_int z).

(** *** [re.findall(r'\{(\w+)\}', s)] *)

(** The longest run of word characters at the head of [s], and the rest. *)
Fixpoint span_word (s : str) : str * str :=
  match s with
  | [] => ([], [])
  | c :: s' =>
      if is_word c
      then let (w, r) := span_word s' in (c :: w, r)
      else ([], s)
  end.

(** A match of [\{(\w+)\}] anchored at the head of [s]: the group is greedy
    and the closing brace is no word character, so the only candidate is the
    longest run. *)
Definition match_placeholder (s : str) : option str :=
  match s with
  | c :: s' =>
      if Ascii.eqb c "{" then
        match span_word s' with
        | (x :: w, d :: _) => if Ascii.eqb d "}" then Some (x :: w) else None
        | _ => None
        end
      else None
  | [] => None
  end.

(** The scan restarts after the end of each match; [skip] counts the
    characters of the last match still to be passed over. *)
Fixpoint findall_go (skip : nat) (s : str) : list str :=
  match s with
  | [] => []
  | _ :: s' =>
      match skip with
      | S k => findall_go k s'
      | O =>
          match match_placeholder s with
          | Some w => w :: findall_go (List.length w + 1) s'
          | None => findall_go 0 s'
          end
      end
  end.

Definition findall_placeholders (s : str) : list str := findall_go 0 s.

End Text.
Import Text.

(* ================================================================= *)
(** ** Python values and exceptions *)

Module Py.

(** What [json.load] / [yaml.safe_load] hand to the generator. *)
#[warnings="-register-all"]
Inductive value : Type :=
| VNone
| VBool (b : bool)
| VInt (z : Z)
| VStr (s : str)
| VList (l : list value)
| VDict (d : list (str * value)).

Inductive exn : Type := AttributeError | TypeError | IndexError | KeyError.

Inductive result (A : Type) : Type :=
| Ok (a : A)
| Raise (e : exn).
Arguments Ok {A} a.
Arguments Raise {A} e.

Definition bind {A B : Type} (m : result A) (k : A -> result B) : result B :=
  match m with
  | Ok a => k a
  | Raise e => Raise e
  end.

Definition is_ok {A : Type} (m : result A) : bool :=
  match m with Ok _ => true | Raise _ => false end.

Fixpoint lookup (k : str) (d : list (str * value)) : option value :=
  match d with
  | [] => None
  | (k', v) :: d' => if str_eqb k k' then Some v else lookup k d'
  end.

Definition has_key (k : str) (d : list (str * value)) : bool :=
  match lookup k d with Some _ => true | None => false end.

(** [v.get(k, dflt)]; only a mapping has the method. *)
Definition py_get (v : value) (k : str) (dflt : value) : result value :=
  match v with
  | VDict d => Ok (match lookup k d with Some x => x | None => dflt end)
  | _ => Raise AttributeError
  end.

(** [v.items()]. *)
Definition py_items (v : value) : result (list (str * value)) :=
  match v with
  | VDict d => Ok d
  | _ => Raise AttributeError
  end.

(** [v[0]]. *)
Definition py_index0 (v : value) : result value :=
  match v with
  | VList (x :: _) => Ok x
  | VList [] => Raise IndexError
  | VStr (c :: _) => Ok (VStr [c])
  | VStr [] => Raise IndexError
  | VDict _ => Raise KeyError
  | _ => Raise TypeError
  end.

Definition is_str (s : str) (v : value) : bool :=
  match v with
  | VStr s' => str_eqb s' s
  | _ => false
  end.

(** [s in v] for a string [s]: key membership in a mapping, element
    membership in a list, substring test in a string. *)
Definition py_in (s : str) (v : value) : result bool :=
  match v with
  | VDict d => Ok (has_key s d)
  | VList l => Ok (existsb (is_str s) l)
  | VStr t => Ok (contains s t)
  | _ => Raise TypeError
  end.

(** [bool(v)]. *)
Definition truthy (v : value) : bool :=
  match v with
  | VNone => false
  | VBool b => b
  | VInt z => negb (Z.eqb z 0)
  | VStr s => match s with [] => false | _ => true end
  | VList l => match l with [] => false | _ => true end
  | VDict d => match d with [] => false | _ => true end
  end.

(** [{**d, k: v}]: an existing key keeps its place, a new key goes last. *)
Fixpoint dict_set (k : str) (v : value) (d : list (str * value)) : list (str * value) :=
  match d with
  | [] => [(k, v)]
  | (k', v') :: d' =>
      if str_eqb k k' then (k', v) :: d' else (k', v') :: dict_set k v d'
  end.

Definition py_merge (d : value) (k : str) (v : value) : result value :=
  match d with
  | VDict l => Ok (VDict (dict_set k v l))
  | _ => Raise TypeError
  end.

(** *** [repr] and [str] *)

Definition dquote : ascii := ascii_of_nat 34.
Definition squote : ascii := ascii_of_nat 39.
Definition backslash : ascii := ascii_of_nat 92.

Definition hex_digit (n : nat) : ascii :=
  nth n (list_ascii_of_string "0123456789abcdef") "0"%char.

Definition repr_char (q c : ascii) : str :=
  let n := nat_of_ascii c in
  if Ascii.eqb c backslash then [backslash; backslash]
  else if Ascii.eqb c q then [backslash; q]
  else if Nat.eqb n 9 then [backslash; "t"%char]
  else if Nat.eqb n 10 then [backslash; "n"%char]
  else if Nat.eqb n 13 then [backslash; "r"%char]
  else if Nat.ltb n 32 || Nat.eqb n 127
       then [backslash; "x"%char; hex_digit (n / 16); hex_digit (n mod 16)]
  else [c].

(** [repr(s)]: single quotes unless the text has a single quote and no
    double quote. *)
Definition repr_str (s : str) : str :=
  let q := if existsb (Ascii.eqb squote) s && negb (existsb (Ascii.eqb dquote) s)
           then dquote else squote in
  q :: flat_map (repr_char q) s ++ [q].

Fixpoint py_repr (v : value) : str :=
  match v with
  | VNone => "None"
  | VBool true => "True"
  | VBool false => "False"
  | VInt z => str_of_Z z
  | VStr s => repr_str s
  | VList l => "[" ++ join ", " (map py_repr l) ++ "]"
  | VDict d =>
      "{" ++ join ", " (map (fun kv => repr_str (fst kv) ++ ": " ++ py_repr (snd kv)) d) ++ "}"
  end.

(** [str(v)], which is what an f-string field [{v}] inserts. *)
Definition py_str (v : value) : str :=
  match v with
  | VStr s => s
  | _ => py_repr v
  end.

End Py.
Import Py.

Declare Scope py_scope.
Notation "x <- m ;; k" := (bind m (fun x => k))
  (at level 61, m at next level, right associativity) : py_scope.
Open Scope py_scope.

(* ================================================================= *)
(** ** The generator: class [OpenAPIToK6] *)

(** One entry of [self.endpoints]. *)
Record Endpoint : Type := mkEndpoint {
  ep_path : str;
  ep_method : str;
  ep_operation : value;
  ep_operation_id : value;
  ep_base_url : value
}.

(** The object: the fields set by [__init__]. *)
Record OpenAPIToK6 : Type := mkGen {
  spec : value;
  auth_key : option str;
  tracked_values : list (str * value);
  endpoints : list Endpoint
}.

(** [OpenAPIToK6(openapi_spec, auth_key)]. *)
Definition init (openapi_spec : value) (key : option str) : OpenAPIToK6 :=
  {| spec := openapi_spec; auth_key := key; tracked_values := []; endpoints := [] |}.

(** *** [parse_spec] *)

Definition http_methods : list str :=
  ["get" : str; "post" : str; "put" : str; "patch" : str; "delete" : str;
   "head" : str; "options" : str].

Definition in_strs (s : str) (l : list str) : bool := existsb (str_eqb s) l.

(** [path.replace("/", "_").replace("{", "").replace("}", "")] behind the
    method key, the default of [operationId]. *)
Definition default_operation_id (method path : str) : str :=
  method ++ "_" ++ replace "}" "" (replace "{" "" (replace "/" "_" path)).

(** The inner loop: the operations of one path item. *)
Fixpoint parse_operations (base_url : value) (path : str)
    (ops : list (str * value)) : result (list Endpoint) :=
  match ops with
  | [] => Ok []
  | (method, operation) :: rest =>
      if in_strs (lower method) http_methods then
        oid <- py_get operation "operationId" (VStr (default_operation_id method path)) ;;
        eps <- parse_operations base_url path rest ;;
        Ok ({| ep_path := path; ep_method := upper method; ep_operation := operation;
               ep_operation_id := oid; ep_base_url := base_url |} :: eps)
      else parse_operations base_url path rest
  end.

(** The outer loop: the path items, [/admin] paths skipped. *)
Fixpoint parse_paths (base_url : value) (paths : list (str * value))
    : result (list Endpoint) :=
  match paths with
  | [] => Ok []
  | (path, path_item) :: rest =>
      if contains "/admin" path then parse_paths base_url rest
      else
        ops <- py_items path_item ;;
        eps <- parse_operations base_url path ops ;;
        more <- parse_paths base_url rest ;;
        Ok (eps ++ more)
  end.

(** [self.spec.get('servers', [{}])[0].get('url', 'http://localhost')]. *)
Definition server_url (openapi_spec : value) : result value :=
  servers <- py_get openapi_spec "servers" (VList [VDict []]) ;;
  first <- py_index0 servers ;;
  py_get first "url" (VStr "http://localhost").

(** [parse_spec] appends to [self.endpoints] and returns nothing; the
    result is the object after the call. *)
Definition parse_spec (self : OpenAPIToK6) : result OpenAPIToK6 :=
  paths <- py_get (spec self) "paths" (VDict []) ;;
  base_url <- server_url (spec self) ;;
  items <- py_items paths ;;
  eps <- parse_paths base_url items ;;
  Ok {| spec := spec self; auth_key := auth_key self;
        tracked_values := tracked_values self;
        endpoints := endpoints self ++ eps |}.

(** *** [extract_path_parameters] *)

Definition extract_path_parameters (path : str) : list str :=
  findall_placeholders path.

(** *** [find_response_value_extractor] *)

(** [for prop_name, prop_schema in properties.items()]: the first name that
    holds [id] once lower-cased. *)
Fixpoint first_id_like (props : list (str * value)) : option str :=
  match props with
  | [] => None
  | (prop_name, _) :: rest =>
      if contains "id" (lower prop_name) then Some ("json." ++ prop_name)
      else first_id_like rest
  end.

(** The body of the loop over content types, for one JSON media type. *)
Definition extractor_of_media (media_type : value) (param_name : str)
    : result (option str) :=
  schema <- py_get media_type "schema" (VDict []) ;;
  properties <- py_get schema "properties" (VDict []) ;;
  exact <- py_in param_name properties ;;
  if exact then Ok (Some ("json." ++ param_name))
  else
    has_id <- py_in "id" properties ;;
    if has_id then Ok (Some ("json.id" : str))
    else
      ty <- py_get schema "type" VNone ;;
      if is_str "object" ty then
        props <- py_items properties ;;
        Ok (first_id_like props)
      else Ok None.

(** [for content_type, media_type in content.items()], left by [return]. *)
Fixpoint extractor_of_content (content : list (str * value)) (param_name : str)
    : result (option str) :=
  match content with
  | [] => Ok None
  | (content_type, media_type) :: rest =>
      if contains "json" (lower content_type) then
        r <- extractor_of_media media_type param_name ;;
        match r with
        | Some e => Ok (Some e)
        | None => extractor_of_content rest param_name
        end
      else extractor_of_content rest param_name
  end.

(** [for status_code in ['200', '201', '202', 'default']], left by [return]. *)
Fixpoint extractor_of_statuses (responses : value) (codes : list str)
    (param_name : str) : result (option str) :=
  match codes with
  | [] => Ok None
  | status_code :: rest =>
      response <- py_get responses status_code (VDict []) ;;
      content <- py_get response "content" (VDict []) ;;
      entries <- py_items content ;;
      r <- extractor_of_content entries param_name ;;
      match r with
      | Some e => Ok (Some e)
      | None => extractor_of_statuses responses rest param_name
      end
  end.

Definition status_codes : list str :=
  ["200" : str; "201" : str; "202" : str; "default" : str].

Definition find_response_value_extractor (operation : value) (param_name : str)
    : result (option str) :=
  responses <- py_get operation "responses" (VDict []) ;;
  extractor_of_statuses responses status_codes param_name.

(** *** [generate_value_tracker] *)

(** The capture block of one path parameter, the f-string of the first
    [trackers.append]; [field] is the response field to read. *)
Definition param_tracker (res_var param field : str) : str :=
  join nl
    [ "" : str;
      "        try {" : str;
      "            if (" ++ res_var ++ ".status === 201 || " ++ res_var ++ ".status === 200) {";
      "                const json = " ++ res_var ++ ".json();";
      "                const value = json." ++ field ++ ";";
      "                if (value) {" : str;
      "                    trackedValues['" ++ param ++ "'] = value;";
      "                    console.log(`Tracked " ++ param ++ ": ${value}`);";
      "                }" : str;
      "            }" : str;
      "        } catch (e) {" : str;
      "            // Response might not be JSON" : str;
      "        }" : str ].

(** The capture block of a franchise creation, the f-string of the second
    [trackers.append]. *)
Definition franchise_tracker (res_var : str) : str :=
  join nl
    [ "" : str;
      "        try {" : str;
      "            if (" ++ res_var ++ ".status === 201 || " ++ res_var ++ ".status === 200) {";
      "                const body = " ++ res_var ++ ".json();";
      "                if (body && body.id) {" : str;
      "                    trackedValues['franchiseId'] = body.id;" : str;
      "                    console.log(`Tracked franchiseId: ${body.id}`);" : str;
      "                } else if (body && body.franchiseId) {" : str;
      "                    trackedValues['franchiseId'] = body.franchiseId;" : str;
      "                    console.log(`Tracked franchiseId: ${body.franchiseId}`);" : str;
      "                }" : str;
      "            }" : str;
      "        } catch (e) {" : str;
      "            // Response might not be JSON" : str;
      "        }" : str ].

(** [extractor.split('.')[1] if '.' in extractor else extractor]. *)
Definition extractor_field (extractor : str) : str :=
  if contains "." extractor then nth 1 (split_char "." extractor) []
  else extractor.

(** [for param in path_params] under [method in ['POST', 'PUT']]. *)
Fixpoint param_trackers (operation : value) (res_var : str) (params : list str)
    : result (list str) :=
  match params with
  | [] => Ok []
  | param :: rest =>
      if contains "id" (lower param) || contains "franchise" (lower param) then
        extractor <- find_response_value_extractor operation param ;;
        more <- param_trackers operation res_var rest ;;
        match extractor with
        | Some (c :: e) =>
            Ok (param_tracker res_var param (extractor_field (c :: e)) :: more)
        | _ => Ok more
        end
      else param_trackers operation res_var rest
  end.

(** [operation.get('method', '').upper()]. *)
Definition operation_method (operation : value) : result str :=
  m <- py_get operation "method" (VStr "") ;;
  match m with
  | VStr s => Ok (upper s)
  | _ => Raise AttributeError
  end.

Definition generate_value_tracker (path : str) (operation : value) (res_var : str)
    : result str :=
  let path_params := extract_path_parameters path in
  method <- operation_method operation ;;
  trackers <- (if in_strs method ["POST" : str; "PUT" : str]
               then param_trackers operation res_var path_params
               else Ok []) ;;
  let trackers :=
    if contains "franchise" (lower path) && str_eqb method "POST"
    then trackers ++ [franchise_tracker res_var]
    else trackers in
  Ok (join nl trackers).

(** *** [replace_path_parameters] *)

(** The text put in place of [{param}]. *)
Definition placeholder (param : str) : str := "{" ++ param ++ "}".

Definition path_lookup (param : str) : str :=
  "${" ++ ("trackedValues." ++ param ++ " || trackedValues." ++ lower param
           ++ " || '" ++ param ++ "'") ++ "}".

Definition replace_path_parameters (path : str) : str :=
  fold_left (fun result param => replace (placeholder param) (path_lookup param) result)
            (extract_path_parameters path) path.

(** *** [generate_request_body] *)

(** The line of one property, or nothing when no branch of the chain
    applies. *)
Definition body_part (prop_name : str) (prop_schema : value) : result (option str) :=
  prop_type <- py_get prop_schema "type" (VStr "string") ;;
  default_value <- py_get prop_schema "default" VNone ;;
  match default_value with
  | VStr s => Ok (Some ("        " ++ prop_name ++ ": '" ++ s ++ "'"))
  | VNone =>
      if is_str "string" prop_type then
        if contains "id" (lower prop_name) || contains "franchise" (lower prop_name)
        then Ok (Some ("        " ++ prop_name ++ ": trackedValues." ++ prop_name
                       ++ " || trackedValues.franchiseId || '" ++ prop_name ++ "_value'"))
        else Ok (Some ("        " ++ prop_name ++ ": '" ++ prop_name ++ "_value'"))
      else if is_str "integer" prop_type || is_str "number" prop_type then
        d <- py_get prop_schema "default" (VInt 0) ;;
        Ok (Some ("        " ++ prop_name ++ ": " ++ py_str d))
      else if is_str "boolean" prop_type then
        d <- py_get prop_schema "default" (VBool false) ;;
        Ok (Some ("        " ++ prop_name ++ ": " ++ py_str d))
      else if is_str "array" prop_type then
        Ok (Some ("        " ++ prop_name ++ ": []"))
      else if is_str "object" prop_type then
        Ok (Some ("        " ++ prop_name ++ ": {}"))
      else Ok None
  | d => Ok (Some ("        " ++ prop_name ++ ": " ++ py_str d))
  end.

(** [for prop_name, prop_schema in properties.items()]. *)
Fixpoint body_parts (props : list (str * value)) : result (list str) :=
  match props with
  | [] => Ok []
  | (prop_name, prop_schema) :: rest =>
      part <- body_part prop_name prop_schema ;;
      more <- body_parts rest ;;
      match part with
      | Some line => Ok (line :: more)
      | None => Ok more
      end
  end.

Definition generate_request_body (schema : value) (var_name : str) : result str :=
  properties <- py_get schema "properties" (VDict []) ;;
  required <- py_get schema "required" (VList []) ;;
  props <- py_items properties ;;
  parts <- body_parts props ;;
  match parts with
  | [] => Ok []
  | _ :: _ =>
      Ok ("    const " ++ var_name ++ " = {" ++ nl ++ join ("," ++ nl) parts
          ++ nl ++ "    };")
  end.

(** *** [generate_k6_script] *)

(** The fixed head of [script_parts]; [url] is the server URL of the spec. *)
Definition preamble (url : str) : list str :=
  [ "import http from 'k6/http';" : str;
    "import { check, sleep } from 'k6';" : str;
    "import { Rate } from 'k6/metrics';" : str;
    "" : str;
    "// Error rate metric" : str;
    "const errorRate = new Rate('errors');" : str;
    "" : str;
    "// Shared state for tracked values across VUs" : str;
    "const trackedValues = {};" : str;
    "" : str;
    "export const options = {" : str;
    "    stages: [" : str;
    "        { duration: '30s', target: 10 },  // Ramp up" : str;
    "        { duration: '1m', target: 10 },   // Stay at 10 users" : str;
    "        { duration: '30s', target: 0 },   // Ramp down" : str;
    "    ]," : str;
    "    thresholds: {" : str;
    "        'http_req_duration': ['p(95)<500']," : str;
    "        'errors': ['rate<0.1']," : str;
    "    }," : str;
    "};" : str;
    "" : str;
    "export default function () {" : str;
    "    const baseUrl = __ENV.BASE_URL || '" ++ url ++ "';";
    "    const authKey = __ENV.AUTH_KEY || null;" : str;
    "" : str ].

Definition trailer : list str :=
  [ "" : str;
    "    // Small sleep between requests" : str;
    "    sleep(0.5);" : str;
    "}" : str ].

(** The line that builds the [Authorization] header from the run-time key. *)
Definition auth_header_line : str :=
  "        ...(authKey ? { 'Authorization': `Bearer ${authKey}` } : {}),".

(** [headers_code] of endpoint number [i]. *)
Definition headers_code (i : nat) (path : str) : list str :=
  [ "    const headers" ++ str_of_nat i ++ " = {";
    "        'Content-Type': 'application/json'," : str ]
  ++ (if negb (contains "/admin" path) then [auth_header_line] else [])
  ++ [ "    };" : str ].

(** The [break]-terminated loop over the other content types. *)
Fixpoint first_json_schema (entries : list (str * value)) : result (option value) :=
  match entries with
  | [] => Ok None
  | (content_type, media_type) :: rest =>
      if contains "json" (lower content_type) then
        s <- py_get media_type "schema" (VDict []) ;;
        Ok (Some s)
      else first_json_schema rest
  end.

Definition request_body_schema (operation : value) : result value :=
  rb <- py_get operation "requestBody" (VDict []) ;;
  content <- py_get rb "content" (VDict []) ;;
  aj <- py_get content "application/json" (VDict []) ;;
  schema <- py_get aj "schema" (VDict []) ;;
  if negb (truthy schema) then
    rb' <- py_get operation "requestBody" (VDict []) ;;
    content' <- py_get rb' "content" (VDict []) ;;
    entries <- py_items content' ;;
    found <- first_json_schema entries ;;
    Ok (match found with Some s => s | None => schema end)
  else Ok schema.

(** [(request_body_var, request_body_code)] of endpoint number [i]. *)
Definition request_body (i : nat) (method : str) (operation : value)
    : result (str * str) :=
  if in_strs method ["POST" : str; "PUT" : str; "PATCH" : str] then
    schema <- request_body_schema operation ;;
    if truthy schema then
      let body_var_name := "body" ++ str_of_nat i in
      code <- generate_request_body schema body_var_name ;;
      Ok (body_var_name, code)
    else Ok ([], [])
  else Ok ([], []).

Definition request_code (i : nat) (method request_body_var : str) : str :=
  let n := str_of_nat i in
  match request_body_var with
  | _ :: _ =>
      nl ++ "    const res" ++ n ++ " = http." ++ lower method ++ "(url" ++ n
         ++ ", JSON.stringify(" ++ request_body_var ++ "), { headers: headers" ++ n ++ " });"
  | [] =>
      nl ++ "    const res" ++ n ++ " = http." ++ lower method ++ "(url" ++ n
         ++ ", null, { headers: headers" ++ n ++ " });"
  end.

Definition check_code (i : nat) : str :=
  let n := str_of_nat i in
  join nl
    [ "" : str;
      "    const success" ++ n ++ " = check(res" ++ n ++ ", {";
      "        'status is 2xx or 3xx': (r) => r.status >= 200 && r.status < 400," : str;
      "    });" : str;
      "    errorRate.add(!success" ++ n ++ ");" ].

(** [tracker_code] of endpoint number [i]: the tracker runs on the
    operation with its [method] entry set to the endpoint's method. *)
Definition tracker_code (i : nat) (ep : Endpoint) : result str :=
  merged <- py_merge (ep_operation ep) "method" (VStr (ep_method ep)) ;;
  generate_value_tracker (ep_path ep) merged ("res" ++ str_of_nat i).

(** The body of the loop over [enumerate(self.endpoints)]: what one
    endpoint adds to [script_parts]. *)
Definition endpoint_block (i : nat) (ep : Endpoint) : result (list str) :=
  let path := ep_path ep in
  let method := ep_method ep in
  let resolved_path := replace_path_parameters path in
  let url_code :=
    "    const url" ++ str_of_nat i ++ " = baseUrl + `" ++ resolved_path ++ "`;" in
  body <- request_body i method (ep_operation ep) ;;
  tracker <- tracker_code i ep ;;
  Ok ([ "" : str;
        "    // " ++ py_str (ep_operation_id ep) ++ ": " ++ method ++ " " ++ path;
        url_code ]
      ++ headers_code i path
      ++ [ snd body;
           request_code i method (fst body);
           check_code i;
           tracker ]).

Fixpoint endpoint_blocks (i : nat) (eps : list Endpoint) : result (list str) :=
  match eps with
  | [] => Ok []
  | ep :: rest =>
      block <- endpoint_block i ep ;;
      more <- endpoint_blocks (S i) rest ;;
      Ok (block ++ more)
  end.

(** [script_parts] at the end of [generate_k6_script]. *)
Definition script_parts (self : OpenAPIToK6) : result (list str) :=
  url <- server_url (spec self) ;;
  match url with
  | VStr u =>
      blocks <- endpoint_blocks 0 (endpoints self) ;;
      Ok (preamble u ++ blocks ++ trailer)
  | _ => Raise TypeError
  end.

Definition generate_k6_script (self : OpenAPIToK6) : result str :=
  parts <- script_parts self ;;
  Ok (join nl parts).

(** *** [generate] *)

(** The script, and the object as the call leaves it. *)
Definition generate (self : OpenAPIToK6) : result (str * OpenAPIToK6) :=
  self' <- parse_spec self ;;
  script <- generate_k6_script self' ;;
  Ok (script, self').

(* ================================================================= *)
(** ** What the specification says, in its own words *)

Module Spec.

Definition is_dict (v : value) : bool :=
  match v with VDict _ => true | _ => false end.

(** The entries of a mapping, none for anything else. *)
Definition entries (v : value) : list (str * value) :=
  match v with VDict d => d | _ => [] end.

(** The entry [k] of a mapping, [dflt] when there is none. *)
Definition field (v : value) (k : str) (dflt : value) : value :=
  match lookup k (entries v) with Some x => x | None => dflt end.

Fixpoint first_some {A B : Type} (f : A -> option B) (l : list A) : option B :=
  match l with
  | [] => None
  | a :: rest => match f a with Some b => Some b | None => first_some f rest end
  end.

(** Rules 1 to 3 of the response-field heuristic on one schema. *)
Definition schema_rule (param_name : str) (schema : value) : option str :=
  let props := entries (field schema "properties" (VDict [])) in
  if has_key param_name props then Some ("json." ++ param_name)
  else if has_key "id" props then Some ("json.id" : str)
  else if is_str "object" (field schema "type" VNone) then
    option_map (fun n => "json." ++ n)
               (find (fun n => contains "id" (lower n)) (map fst props))
  else None.

(** The schemas of the JSON content entries of a response, in order. *)
Definition json_schemas (response : value) : list value :=
  map (fun e => field (snd e) "schema" (VDict []))
      (filter (fun e => contains "json" (lower (fst e)))
              (entries (field response "content" (VDict [])))).

(** First match over the status codes 200, 201, 202, default. *)
Definition response_extractor (operation : value) (param_name : str) : option str :=
  let responses := field operation "responses" (VDict []) in
  first_some
    (fun code => first_some (schema_rule param_name)
                            (json_schemas (field responses code (VDict []))))
    status_codes.

(** The identifier the specification describes for an operation without
    [operationId]: method, underscore, path without [/], [{] and [}]. *)
Definition stripped_operation_id (method path : str) : str :=
  method ++ "_"
  ++ filter (fun c => negb (Ascii.eqb c "/" || Ascii.eqb c "{" || Ascii.eqb c "}")) path.

(** One left-to-right pass over a path template: every placeholder whose
    name is selected by [sel] becomes [f name], everything else is copied. *)
Fixpoint substitute_go (sel : str -> bool) (f : str -> str) (skip : nat) (s : str) : str :=
  match s with
  | [] => []
  | c :: s' =>
      match skip with
      | S k => substitute_go sel f k s'
      | O =>
          match match_placeholder s with
          | Some w =>
              (if sel w then f w else "{" ++ w ++ "}")
              ++ substitute_go sel f (List.length w + 1) s'
          | None => c :: substitute_go sel f 0 s'
          end
      end
  end.

Definition substitute_placeholders (f : str -> str) (s : str) : str :=
  substitute_go (fun _ => true) f 0 s.

(** The run-time lookup the specification asks for: the registry entry
    under the exact name, else under the lower-cased name, else the name
    itself as a string literal, inside a template-literal interpolation. *)
Definition lookup_expression (name : str) : str :=
  "${" ++ "trackedValues." ++ name
       ++ " || " ++ "trackedValues." ++ lower name
       ++ " || " ++ "'" ++ name ++ "'" ++ "}".

(** The value the specification gives to a property handled by the string
    branch of body synthesis: a registry lookup (exact name, else
    [franchiseId], else a placeholder literal) when the name holds [id] or
    [franchise] in any case, else the placeholder literal alone. *)
Definition string_branch_value (prop_name : str) : str :=
  if contains "id" (lower prop_name) || contains "franchise" (lower prop_name)
  then "trackedValues." ++ prop_name ++ " || trackedValues.franchiseId || '"
       ++ prop_name ++ "_value'"
  else "'" ++ prop_name ++ "_value'".

(** The type names body synthesis has a branch for. *)
Definition recognized_types : list str :=
  ["string" : str; "integer" : str; "number" : str; "boolean" : str;
   "array" : str; "object" : str].

Definition recognized_type (t : value) : bool :=
  existsb (fun n => is_str n t) recognized_types.

(** The path as the generator writes it into an identifier: every [/] an
    underscore, the braces dropped. *)
Definition slug_char (c : ascii) : str :=
  if Ascii.eqb c "/" then "_"
  else if Ascii.eqb c "{" || Ascii.eqb c "}" then []
  else [c].

Definition path_slug (path : str) : str := flat_map slug_char path.

(** [a] occurs in [b] as a run of consecutive characters. *)
Definition infix_of (a b : str) : Prop := exists pre post, b = pre ++ a ++ post.

(** The text a call of [generate] returns, the object left aside. *)
Definition script_of (r : result (str * OpenAPIToK6)) : result str :=
  match r with
  | Ok (script, _) => Ok script
  | Raise e => Raise e
  end.

(** The [servers] entry is missing, or is a list with a first element. *)
Definition servers_usable (openapi_spec : value) : Prop :=
  lookup "servers" (entries openapi_spec) = None
  \/ exists first rest,
       lookup "servers" (entries openapi_spec) = Some (VList (first :: rest)).

(** The endpoints a call of [parse_spec] leaves in the object. *)
Definition endpoints_of (r : result OpenAPIToK6) : list Endpoint :=
  match r with
  | Ok self => endpoints self
  | Raise _ => []
  end.

(** Where an endpoint comes from: an operation entry, under a method name
    of the HTTP list, of a path item that is not an [/admin] path; the
    identifier of an operation without [operationId] is the default one. *)
Definition extracted_from (paths : list (str * value)) (ep : Endpoint) : Prop :=
  contains "/admin" (ep_path ep) = false
  /\ exists item method,
       In (ep_path ep, item) paths
       /\ In (method, ep_operation ep) (entries item)
       /\ in_strs (lower method) http_methods = true
       /\ ep_method ep = upper method
       /\ (lookup "operationId" (entries (ep_operation ep)) = None ->
           ep_operation_id ep = VStr (default_operation_id method (ep_path ep))).

(** The capture the specification asks for on a franchise creation: the
    [id] field of the body when it is there, else its [franchiseId] field,
    stored in the registry under [franchiseId]. *)
Definition franchise_capture : str :=
  join nl
    [ "                if (body && body.id) {" : str;
      "                    trackedValues['franchiseId'] = body.id;" : str;
      "                    console.log(`Tracked franchiseId: ${body.id}`);" : str;
      "                } else if (body && body.franchiseId) {" : str;
      "                    trackedValues['franchiseId'] = body.franchiseId;" : str;
      "                    console.log(`Tracked franchiseId: ${body.franchiseId}`);" : str;
      "                }" : str ].

End Spec.
Import Spec.

(** *** Well-formed operations: every level the extractor walks is a mapping *)

Definition wf_schema (schema : value) : bool :=
  is_dict schema && is_dict (field schema "properties" (VDict [])).

Definition wf_media (media_type : value) : bool :=
  is_dict media_type && wf_schema (field media_type "schema" (VDict [])).

Definition wf_response (response : value) : bool :=
  is_dict response
  && is_dict (field response "content" (VDict []))
  && forallb (fun e => implb (contains "json" (lower (fst e))) (wf_media (snd e)))
             (entries (field response "content" (VDict []))).

Definition wf_operation (operation : value) : bool :=
  is_dict operation
  && is_dict (field operation "responses" (VDict []))
  && forallb (fun code =>
                wf_response (field (field operation "responses" (VDict [])) code
                                   (VDict [])))
             status_codes.

(* ================================================================= *)
(** ** Vocabulary of the proofs about placeholders *)

(** A placeholder name: a non-empty run of word characters. *)
Definition word_ne (w : str) : Prop := w <> [] /\ forallb is_word w = true.

Definition starts_nonword (r : str) : Prop :=
  match r with [] => True | d :: _ => is_word d = false end.

(** One turn of the loop of [replace_path_parameters]. *)
Definition resolve_one (a : str) (s : str) : str :=
  replace (placeholder a) (path_lookup a) s.

(** What follows the opening [${] of the lookup expression. *)
Definition lookup_tail (w : str) : str :=
  ("trackedValues." ++ w ++ " || trackedValues." ++ lower w ++ " || '" ++ w ++ "'")
  ++ "}".

(* ================================================================= *)
(** ** Vocabulary of the further properties *)

(** The method names an endpoint can carry. *)
Definition http_method_names : list str :=
  ["GET" : str; "POST" : str; "PUT" : str; "PATCH" : str; "DELETE" : str;
   "HEAD" : str; "OPTIONS" : str].

(** The methods sent without a body and without tracking. *)
Definition read_only_methods : list str :=
  ["GET" : str; "DELETE" : str; "HEAD" : str; "OPTIONS" : str].

(** A path item the inner loop of [parse_spec] walks without raising: a
    mapping whose entries under a method name are mappings. *)
Definition wf_path_item (path_item : value) : bool :=
  match path_item with
  | VDict ops =>
      forallb (fun e => implb (in_strs (lower (fst e)) http_methods) (is_dict (snd e)))
              ops
  | _ => false
  end.

(** Paths the outer loop walks without raising: every item outside
    [/admin] is such a path item. *)
Definition wf_paths (paths : list (str * value)) : bool :=
  forallb (fun e => contains "/admin" (fst e) || wf_path_item (snd e)) paths.

(** A schema [generate_request_body] walks without raising. *)
Definition wf_body_schema (schema : value) : bool :=
  is_dict schema
  && is_dict (field schema "properties" (VDict []))
  && forallb (fun e => is_dict (snd e))
             (entries (field schema "properties" (VDict []))).

(** A character is neither a slash nor a brace. *)
Definition slug_safe (c : ascii) : bool :=
  negb (Ascii.eqb c "/" || Ascii.eqb c "{" || Ascii.eqb c "}").

(** The text of [s] before its first dot. *)
Fixpoint before_dot (s : str) : str :=
  match s with
  | [] => []
  | c :: s' => if Ascii.eqb c "." then [] else c :: before_dot s'
  end.

(** The line of a property that declares the default [v]. *)
Definition default_line (prop_name : str) (v : value) : str :=
  "        " ++ prop_name ++ ": "
  ++ match v with
     | VStr s => "'" ++ s ++ "'"
     | _ => py_str v
     end.

(** The property declares a default other than null. *)
Definition declared_default (prop_schema : value) : option value :=
  match lookup "default" (entries prop_schema) with
  | Some VNone => None
  | other => other
  end.


(** The capture blocks of the path parameters, as the heuristic decides
    them: one block for each parameter whose name holds [id] or [franchise]
    in any case and for which a response field is found. *)
Definition tracked_blocks (operation : value) (res_var : str) (params : list str)
    : list str :=
  flat_map
    (fun param =>
       if contains "id" (lower param) || contains "franchise" (lower param) then
         match response_extractor operation param with
         | Some e => [param_tracker res_var param (extractor_field e)]
         | None => []
         end
       else [])
    params.

(** The number a decimal numeral stands for. *)
Definition nat_of_str (s : str) : option nat :=
  option_map Nat.of_uint (NilZero.uint_of_string (string_of_list_ascii s)).

(* ================================================================= *)
(** ** A vocabulary of its own for the statements

    The definitions of this module call none of the functions of the
    embedding above: text is compared with the decidable equality of lists,
    letter case goes through two tables, a mapping is searched by a function
    of the module, and the pieces of script are written out as text.  The
    theorems that compare the code with them therefore say what the code
    computes in terms the code does not define. *)

Module Plain.

Definition same_text (a b : str) : bool :=
  if list_eq_dec ascii_dec a b then true else false.

Definition capitals : str := "ABCDEFGHIJKLMNOPQRSTUVWXYZ".
Definition smalls : str := "abcdefghijklmnopqrstuvwxyz".
Definition figures : str := "0123456789".

Fixpoint position (c : ascii) (l : str) : option nat :=
  match l with
  | [] => None
  | x :: l' => if ascii_dec x c then Some 0 else option_map S (position c l')
  end.

Definition to_small (c : ascii) : ascii :=
  match position c capitals with
  | Some i => nth i smalls c
  | None => c
  end.

Definition to_capital (c : ascii) : ascii :=
  match position c smalls with
  | Some i => nth i capitals c
  | None => c
  end.

(** The text in small letters, in capital letters. *)
Definition small (s : str) : str := map to_small s.
Definition capital (s : str) : str := map to_capital s.

(** A letter, a digit or the underscore. *)
Definition name_char (c : ascii) : bool :=
  match position c (capitals ++ smalls ++ figures ++ "_") with
  | Some _ => true
  | None => false
  end.

(** A parameter name: letters, digits and underscores, at least one. *)
Definition name (w : str) : Prop := w <> [] /\ forallb name_char w = true.

(** Every character is an ASCII character. *)
Definition ascii_text (s : str) : bool :=
  forallb (fun c => Nat.ltb (nat_of_ascii c) 128) s.

(** [sub] occurs in [s]. *)
Fixpoint holds (sub s : str) : bool :=
  same_text (firstn (List.length sub) s) sub
  || match s with
     | [] => false
     | _ :: s' => holds sub s'
     end.

(** The first entry of a mapping under a key. *)
Fixpoint assoc (k : str) (d : list (str * value)) : option value :=
  match d with
  | [] => None
  | e :: d' => if same_text (fst e) k then Some (snd e) else assoc k d'
  end.

(** The entry under a key, the empty mapping when there is none. *)
Definition at_key (d : list (str * value)) (k : str) : value :=
  match assoc k d with
  | Some v => v
  | None => VDict []
  end.

Definition members (v : value) : list (str * value) :=
  match v with
  | VDict d => d
  | _ => []
  end.


(** *** The response-field heuristic

    A search gives [None] when it comes to a value that should be a mapping
    and is none, [Some None] when it finds no field, [Some (Some e)] when it
    finds the field [e]. *)






(** *** Extraction *)

Definition method_keys : list str :=
  ["get" : str; "post" : str; "put" : str; "patch" : str; "delete" : str;
   "head" : str; "options" : str].

(** The key names a method, in any letter case. *)
Definition is_method (k : str) : bool := existsb (same_text (small k)) method_keys.

(** The path written into an identifier: a slash becomes an underscore, a
    brace is dropped. *)
Definition path_text (path : str) : str :=
  flat_map (fun c => if ascii_dec c "/" then ["_"%char]
                     else if ascii_dec c "{" then []
                     else if ascii_dec c "}" then []
                     else [c])
           path.

(** The identifier of an operation: the declared one, else the method key
    as the spec writes it, an underscore, and the path text. *)
Definition identifier (method path : str) (operation : value) : value :=
  match assoc "operationId" (members operation) with
  | Some v => v
  | None => VStr (method ++ "_" ++ path_text path)
  end.

Definition operations_of (base : value) (path : str) (item : value)
    : list Endpoint :=
  flat_map (fun o =>
              if is_method (fst o)
              then [mkEndpoint path (capital (fst o)) (snd o)
                               (identifier (fst o) path (snd o)) base]
              else [])
           (members item).

(** The endpoints of the paths of a spec, in path-then-method order, the
    paths that hold [/admin] left out. *)
Definition extract (base : value) (paths : list (str * value)) : list Endpoint :=
  flat_map (fun e => if holds "/admin" (fst e) then []
                     else operations_of base (fst e) (snd e))
           paths.

(** The paths of a spec. *)
Definition paths_of (openapi_spec : value) : list (str * value) :=
  members (at_key (members openapi_spec) "paths").

(** *** The path resolver *)

Definition braced (w : str) : str := "{" ++ w ++ "}".

(** The run-time lookup: the registry entry under the exact name, else the
    one under the name in small letters, else the name as a text literal. *)
Definition lookup_text (w : str) : str :=
  "${trackedValues." ++ w ++ " || trackedValues." ++ small w ++ " || '" ++ w ++ "'}".

(** The text begins with a placeholder. *)
Definition opens_placeholder (s : str) : Prop :=
  exists w rest, name w /\ s = braced w ++ rest.

(** [resolved path text]: [text] is [path] with every placeholder, from left
    to right, replaced by its lookup and every other character kept. *)
Inductive resolved : str -> str -> Prop :=
| resolved_end : resolved [] []
| resolved_name (w r r' : str) :
    name w -> resolved r r' -> resolved (braced w ++ r) (lookup_text w ++ r')
| resolved_char (c : ascii) (r r' : str) :
    ~ opens_placeholder (c :: r) -> resolved r r' -> resolved (c :: r) (c :: r').

(** *** Pieces of script, as text *)

(** The capture block of a franchise creation for the response variable
    [res]. *)
Definition franchise_block (res : str) : str :=
  "
        try {
            if (" ++ res ++ ".status === 201 || " ++ res ++ ".status === 200) {
                const body = " ++ res ++ ".json();
                if (body && body.id) {
                    trackedValues['franchiseId'] = body.id;
                    console.log(`Tracked franchiseId: ${body.id}`);
                } else if (body && body.franchiseId) {
                    trackedValues['franchiseId'] = body.franchiseId;
                    console.log(`Tracked franchiseId: ${body.franchiseId}`);
                }
            }
        } catch (e) {
            // Response might not be JSON
        }".

(** The header declaration of the endpoint whose number reads [digits],
    with the Authorization header under the test of the run-time key. *)
Definition header_block (digits : str) : str :=
  "    const headers" ++ digits ++ " = {
        'Content-Type': 'application/json',
        ...(authKey ? { 'Authorization': `Bearer ${authKey}` } : {}),
    };".

(** The declaration of the run-time key. *)
Definition auth_key_line : str := "    const authKey = __ENV.AUTH_KEY || null;".

(** The line that builds the Authorization header. *)
Definition authorization_line : str :=
  "        ...(authKey ? { 'Authorization': `Bearer ${authKey}` } : {}),".

(** The first line of every script. *)
Definition script_start : str := "import http from 'k6/http';
".

(** The end of every script. *)
Definition script_end : str := "

    // Small sleep between requests
    sleep(0.5);
}".

End Plain.

(* ================================================================= *)
(** ** Sample documents *)

Module Samples.

Definition dict (l : list (string * value)) : value :=
  VDict (map (fun kv => (list_ascii_of_string (fst kv), snd kv)) l).

Definition json_content (schema : value) : value :=
  dict [("content", dict [("application/json", dict [("schema", schema)])])].

(** Properties [{id: string, name: string}]. *)
Definition id_name_schema : value :=
  dict [("type", VStr "object");
        ("properties", dict [("id", dict [("type", VStr "string")]);
                             ("name", dict [("type", VStr "string")])])].

(** An operation whose 201 response has that schema. *)
Definition created_operation : value :=
  dict [("responses", dict [("201", json_content id_name_schema)])].

(** Properties [{id}]. *)
Definition id_schema : value :=
  dict [("type", VStr "object"); ("properties", dict [("id", dict [])])].

(** An operation whose 201 response declares [{id}]. *)
Definition create_franchise : value :=
  dict [("responses", dict [("201", json_content id_schema)])].

(** [/admin/users] with GET, [/franchises] with POST and that response. *)
Definition franchise_spec : value :=
  dict [("paths",
         dict [("/admin/users", dict [("get", dict [])]);
               ("/franchises", dict [("post", create_franchise)])])].

(** The endpoint extraction makes of it. *)
Definition franchise_endpoint : Endpoint :=
  {| ep_path := "/franchises"; ep_method := "POST";
     ep_operation := create_franchise;
     ep_operation_id := VStr "post__franchises";
     ep_base_url := VStr "http://localhost" |}.

(** [{properties: {name: {type: string}, active: {type: boolean, default: true}}}]. *)
Definition name_active_schema : value :=
  dict [("properties",
         dict [("name", dict [("type", VStr "string")]);
               ("active", dict [("type", VStr "boolean"); ("default", VBool true)])])].

(** A spec whose [servers] entry is present and empty. *)
Definition no_server_spec : value :=
  dict [("servers", VList []);
        ("paths", dict [("/items", dict [("get", dict [])])])].

(** One GET on [/users] and one PUT on [/users/{userId}], no [operationId]. *)
Definition users_spec : value :=
  dict [("paths", dict [("/users", dict [("get", dict [])]);
                        ("/users/{userId}", dict [("put", dict [])])])].

(** A property whose type is none of the six names. *)
Definition tagged_schema : value :=
  dict [("properties", dict [("tag", dict [("type", VStr "uuid")])])].

(** Method keys in mixed case beside a key that is no method. *)
Definition mixed_case_spec : value :=
  dict [("paths", dict [("/items", dict [("Get", dict []);
                                         ("parameters", VList []);
                                         ("DELETE", dict [])])])].


(** A POST whose body schema names a type and no property. *)
Definition bare_body_operation : value :=
  dict [("requestBody", json_content (dict [("type", VStr "object")]))].

(** A body under a vendor JSON content type, after a form content type. *)
Definition vendor_body_operation : value :=
  dict [("requestBody",
         dict [("content",
                dict [("multipart/form-data", VNone);
                      ("application/vnd.api+JSON", dict [("schema", name_active_schema)])])])].

(** Properties that all declare a default: text with a quote, a number, a
    list. *)
Definition defaults_schema : value :=
  dict [("properties",
         dict [("kind", dict [("type", VStr "integer"); ("default", VStr "a'b")]);
               ("limit", dict [("default", VInt 10)]);
               ("tags", dict [("type", VStr "array");
                              ("default", VList [VStr "x"; VInt 1])])])].

(** A GET whose request body and responses are no mappings. *)
Definition odd_get_endpoint : Endpoint :=
  {| ep_path := "/franchises/{id}"; ep_method := "GET";
     ep_operation := dict [("requestBody", VInt 3); ("responses", VList [])];
     ep_operation_id := VStr "listFranchises";
     ep_base_url := VStr "http://localhost" |}.

(** A 200 response whose only id-like property has a dot in its name. *)
Definition dotted_operation : value :=
  dict [("responses",
         dict [("200", json_content
                         (dict [("type", VStr "object");
                                ("properties", dict [("user.id", dict [])])]))])].



(** An operation whose responses entry is null. *)
Definition null_responses_operation : value :=
  dict [("responses", VNone)].

(** Method keys in mixed case, one with a declared identifier. *)
Definition cased_spec : value :=
  dict [("paths", dict [("/items/{itemId}",
                         dict [("Get", dict []);
                               ("summary", VStr "items");
                               ("PUT", dict [("operationId", VStr "replaceItem")])]);
                        ("/v1/admin-tools", dict [("get", dict [])])])].

(** A POST whose body schema holds the property of unrecognized type. *)
Definition tagged_operation : value :=
  dict [("requestBody", json_content tagged_schema)].

End Samples.

(* ================================================================= *)
(** ** Sanity checks of the embedding *)

Example lower_ex : lower "FranchiseId" = "franchiseid".
Proof. reflexivity. Qed.

Example findall_ex :
  findall_placeholders "/franchises/{franchiseId}/items/{itemId}/{itemId}"
  = ["franchiseId" : str; "itemId" : str; "itemId" : str].
Proof. reflexivity. Qed.

Example replace_ex : replace "ab" "X" "cababa" = "cXXa".
Proof. reflexivity. Qed.

Example split_ex : split_char "." "json.user.id" = ["json" : str; "user" : str; "id" : str].
Proof. reflexivity. Qed.

Example py_str_bool : py_str (VBool true) = "True".
Proof. reflexivity. Qed.

Example replace_path_parameters_ex :
  replace_path_parameters "/items/{itemId}"
  = "/items/${trackedValues.itemId || trackedValues.itemid || 'itemId'}".
Proof. reflexivity. Qed.

Example nested_braces_ex :
  extract_path_parameters "/a/{{x}}/{y/{z_1}" = ["x" : str; "z_1" : str].
Proof. reflexivity. Qed.

Example py_str_list :
  py_str (VList [VInt 1; VStr "a"; VNone; VInt (-20)]) = "[1, 'a', None, -20]".
Proof. reflexivity. Qed.

(* ================================================================= *)
(** ** Text lemmas *)

Lemma Ok_inj (A : Type) (a b : A) : Ok a = Ok b -> a = b.
Proof. intros H. now injection H. Qed.

Lemma str_eqb_eq (a b : str) : str_eqb a b = true <-> a = b.
Proof.
  revert b; induction a as [|x a IH]; intros [|y b]; simpl; split;
    try congruence; try reflexivity.
  - intros H. apply andb_true_iff in H as [Hx Hr].
    apply Ascii.eqb_eq in Hx. apply IH in Hr. congruence.
  - intros H. injection H as -> ->.
    rewrite Ascii.eqb_refl. simpl. now apply IH.
Qed.

Lemma str_eqb_refl (a : str) : str_eqb a a = true.
Proof. now apply str_eqb_eq. Qed.

Lemma str_eqb_neq (a b : str) : str_eqb a b = false <-> a <> b.
Proof.
  split.
  - intros H E. apply str_eqb_eq in E. congruence.
  - intros H. destruct (str_eqb a b) eqn:E; [|reflexivity].
    apply str_eqb_eq in E. contradiction.
Qed.

Lemma prefix_of_app (p s : str) : prefix_of p (p ++ s) = true.
Proof.
  induction p as [|x p IH]; simpl; [reflexivity|].
  now rewrite Ascii.eqb_refl.
Qed.

Lemma prefix_of_inv (p s : str) :
  prefix_of p s = true -> exists r, s = p ++ r.
Proof.
  revert s; induction p as [|x p IH]; intros s H; simpl in *.
  - now exists s.
  - destruct s as [|y s]; [discriminate|].
    apply andb_true_iff in H as [Hx Hr].
    apply Ascii.eqb_eq in Hx. subst y.
    destruct (IH _ Hr) as [r ->]. now exists r.
Qed.

(* ================================================================= *)
(** ** The response-field extractor (section 4.3) *)

Section Extractor.

Variable param_name : str.

Lemma py_get_field (v : value) (k : str) (dflt : value) :
  is_dict v = true -> py_get v k dflt = Ok (field v k dflt).
Proof. destruct v; simpl; try discriminate. reflexivity. Qed.

Lemma py_items_entries (v : value) :
  is_dict v = true -> py_items v = Ok (entries v).
Proof. destruct v; simpl; try discriminate. reflexivity. Qed.

Lemma py_in_entries (s : str) (v : value) :
  is_dict v = true -> py_in s v = Ok (has_key s (entries v)).
Proof. destruct v; simpl; try discriminate. reflexivity. Qed.

Lemma first_id_like_find (props : list (str * value)) :
  first_id_like props
  = option_map (fun n => "json." ++ n)
               (find (fun n => contains "id" (lower n)) (map fst props)).
Proof.
  induction props as [|[n v] props IH]; simpl; [reflexivity|].
  destruct (contains _ (lower n)); [reflexivity|exact IH].
Qed.

Lemma extractor_of_media_rule (media_type : value) :
  wf_media media_type = true ->
  extractor_of_media media_type param_name
  = Ok (schema_rule param_name (field media_type "schema" (VDict []))).
Proof.
  unfold wf_media, wf_schema, extractor_of_media, schema_rule.
  intros H.
  apply andb_true_iff in H as [Hm H]. apply andb_true_iff in H as [Hs Hp].
  rewrite py_get_field by exact Hm. cbn [bind].
  rewrite py_get_field by exact Hs. cbn [bind].
  rewrite py_in_entries by exact Hp. cbn [bind].
  destruct (has_key param_name _); [reflexivity|].
  rewrite py_in_entries by exact Hp. cbn [bind].
  destruct (has_key _ _); [reflexivity|].
  rewrite py_get_field by exact Hs. cbn [bind].
  destruct (is_str _ _); [|reflexivity].
  rewrite py_items_entries by exact Hp. cbn [bind].
  now rewrite first_id_like_find.
Qed.

Lemma extractor_of_content_rule (content : list (str * value)) :
  forallb (fun e => implb (contains "json" (lower (fst e))) (wf_media (snd e)))
          content = true ->
  extractor_of_content content param_name
  = Ok (first_some (schema_rule param_name)
          (map (fun e => field (snd e) "schema" (VDict []))
               (filter (fun e => contains "json" (lower (fst e))) content))).
Proof.
  induction content as [|[ct mt] content IH]; simpl; [reflexivity|].
  intros H. apply andb_true_iff in H as [Hh Ht].
  destruct (contains "json" (lower ct)); simpl in *.
  - rewrite extractor_of_media_rule by exact Hh. cbn [bind].
    destruct (schema_rule _ _); [reflexivity|]. now apply IH.
  - now apply IH.
Qed.

Lemma extractor_of_statuses_rule (responses : value) (codes : list str) :
  is_dict responses = true ->
  forallb (fun code => wf_response (field responses code (VDict []))) codes = true ->
  extractor_of_statuses responses codes param_name
  = Ok (first_some
          (fun code => first_some (schema_rule param_name)
                                  (json_schemas (field responses code (VDict []))))
          codes).
Proof.
  intros Hd. induction codes as [|code codes IH]; simpl; [reflexivity|].
  intros H. apply andb_true_iff in H as [Hh Ht].
  unfold wf_response in Hh.
  apply andb_true_iff in Hh as [Hh Hall]. apply andb_true_iff in Hh as [Hr Hc].
  rewrite py_get_field by exact Hd. cbn [bind].
  rewrite py_get_field by exact Hr. cbn [bind].
  rewrite py_items_entries by exact Hc. cbn [bind].
  rewrite extractor_of_content_rule by exact Hall. cbn [bind].
  unfold json_schemas. rewrite IH by exact Ht.
  now destruct (first_some (schema_rule param_name) _).
Qed.

(** A well-formed operation never makes the extractor raise, and the
    extractor computes the heuristic of the specification. *)
Lemma find_response_value_extractor_wf (operation : value) :
  wf_operation operation = true ->
  find_response_value_extractor operation param_name
  = Ok (response_extractor operation param_name).
Proof.
  unfold wf_operation, find_response_value_extractor, response_extractor.
  intros H. apply andb_true_iff in H as [H Hall]. apply andb_true_iff in H as [Ho Hr].
  rewrite py_get_field by exact Ho. cbn [bind].
  now apply extractor_of_statuses_rule.
Qed.

End Extractor.

(* ================================================================= *)
(** ** Placeholders and the path resolver (sections 4.2 and 4.5) *)

Lemma placeholder_app (w r : str) :
  placeholder w ++ r = "{"%char :: w ++ "}"%char :: r.
Proof.
  unfold placeholder. change (list_ascii_of_string "{") with ["{"%char].
  change (list_ascii_of_string "}") with ["}"%char].
  simpl. now rewrite <- app_assoc.
Qed.

Lemma span_word_spec (s : str) :
  s = fst (span_word s) ++ snd (span_word s)
  /\ forallb is_word (fst (span_word s)) = true
  /\ starts_nonword (snd (span_word s)).
Proof.
  induction s as [|c s IH]; simpl; [auto|].
  destruct (is_word c) eqn:Hc.
  - destruct (span_word s) as [w r]. simpl in *.
    destruct IH as (-> & Hw & Hr). rewrite Hc. auto.
  - simpl. auto.
Qed.

Lemma span_word_app (w r : str) :
  forallb is_word w = true -> starts_nonword r -> span_word (w ++ r) = (w, r).
Proof.
  intros Hw Hr. induction w as [|c w IH]; simpl in *.
  - destruct r as [|d r]; [reflexivity|]. simpl in Hr. simpl. now rewrite Hr.
  - apply andb_true_iff in Hw as [Hc Hw]. rewrite Hc, (IH Hw). reflexivity.
Qed.

Lemma span_word_word (w : str) :
  forallb is_word w = true -> span_word w = (w, []).
Proof.
  intros Hw. pose proof (span_word_app w [] Hw I) as H.
  now rewrite app_nil_r in H.
Qed.

Lemma match_placeholder_inv (s w : str) :
  match_placeholder s = Some w -> word_ne w /\ exists r, s = placeholder w ++ r.
Proof.
  intros H.
  enough (word_ne w /\ exists r, s = "{"%char :: w ++ "}"%char :: r) as [A [r B]].
  { split; [exact A|]. exists r. now rewrite placeholder_app. }
  revert H. destruct s as [|c s]; simpl; [discriminate|].
  destruct (Ascii.eqb c "{") eqn:Hc; [|discriminate].
  apply Ascii.eqb_eq in Hc. subst c.
  destruct (span_word_spec s) as (Hs & Hw & _).
  destruct (span_word s) as [[|x v] [|d r]]; simpl in *; try discriminate.
  destruct (Ascii.eqb d "}") eqn:Hd; [|discriminate].
  apply Ascii.eqb_eq in Hd. subst d.
  intros E. assert (Ew : w = x :: v) by congruence. subst w. clear E. split.
  - split; [discriminate|exact Hw].
  - exists r. now rewrite Hs.
Qed.

Lemma match_placeholder_intro (w r : str) :
  word_ne w -> match_placeholder (placeholder w ++ r) = Some w.
Proof.
  intros [Hne Hw]. rewrite placeholder_app. simpl.
  rewrite span_word_app; [|exact Hw|reflexivity].
  destruct w; [contradiction|reflexivity].
Qed.

(** The occurrences of [{a}] are exactly the matches of the pattern that
    capture [a]. *)
Lemma prefix_placeholder (a s : str) :
  word_ne a ->
  prefix_of (placeholder a) s = true <-> match_placeholder s = Some a.
Proof.
  intros Ha. split.
  - intros H. apply prefix_of_inv in H as [r ->]. now apply match_placeholder_intro.
  - intros H. apply match_placeholder_inv in H as [_ [r ->]]. apply prefix_of_app.
Qed.

Lemma match_placeholder_head (c : ascii) (s : str) :
  c <> "{"%char -> match_placeholder (c :: s) = None.
Proof.
  intros H. simpl. destruct (Ascii.eqb c "{") eqn:E; [|reflexivity].
  apply Ascii.eqb_eq in E. contradiction.
Qed.

Lemma is_word_not_brace (c : ascii) : is_word c = true -> c <> "{"%char.
Proof. intros H ->. discriminate H. Qed.

Lemma word_no_brace (w : str) :
  forallb is_word w = true -> Forall (fun c => c <> "{"%char) w.
Proof.
  intros H. apply Forall_forall. intros c Hc.
  apply is_word_not_brace. rewrite forallb_forall in H. now apply H.
Qed.

(** Induction along the scan of [re.findall]: a template is empty, or a
    character at which the pattern does not match followed by a template,
    or a placeholder followed by a template. *)
Lemma placeholder_ind (P : str -> Prop) :
  P [] ->
  (forall c s, match_placeholder (c :: s) = None -> P s -> P (c :: s)) ->
  (forall w r, word_ne w -> P r -> P (placeholder w ++ r)) ->
  forall s, P s.
Proof.
  intros Hnil Hskip Hmatch s.
  remember (List.length s) as n eqn:Hn.
  revert s Hn. induction n as [n IH] using lt_wf_ind. intros s Hn.
  destruct s as [|c s]; [exact Hnil|].
  destruct (match_placeholder (c :: s)) as [w|] eqn:E.
  - destruct (match_placeholder_inv _ E) as [Hw [r Hr]]. rewrite Hr.
    apply Hmatch; [exact Hw|].
    apply (IH (List.length r)); [|reflexivity].
    subst n. rewrite Hr, placeholder_app. simpl. rewrite length_app. simpl. lia.
  - apply Hskip; [exact E|]. apply (IH (List.length s)); [|reflexivity].
    subst n. simpl. lia.
Qed.

(** *** Equations of the three scans *)

Lemma findall_go_skip (u r : str) :
  findall_go (List.length u) (u ++ r) = findall_go 0 r.
Proof.
  induction u as [|c u IH]; simpl; [|exact IH].
  destruct r; reflexivity.
Qed.

Lemma findall_nomatch (c : ascii) (s : str) :
  match_placeholder (c :: s) = None ->
  findall_placeholders (c :: s) = findall_placeholders s.
Proof. unfold findall_placeholders. cbn [findall_go]. now intros ->. Qed.

Lemma findall_match (w r : str) :
  word_ne w ->
  findall_placeholders (placeholder w ++ r) = w :: findall_placeholders r.
Proof.
  intros Hw. unfold findall_placeholders.
  pose proof (match_placeholder_intro r Hw) as E.
  rewrite placeholder_app in *. cbn [findall_go]. rewrite E. f_equal.
  replace (List.length w + 1) with (List.length (w ++ ["}"%char]))
    by now rewrite length_app.
  change (w ++ "}"%char :: r) with (w ++ ["}"%char] ++ r).
  rewrite app_assoc. apply findall_go_skip.
Qed.

Lemma findall_through (u r : str) :
  Forall (fun c => c <> "{"%char) u ->
  findall_placeholders (u ++ r) = findall_placeholders r.
Proof.
  induction 1 as [|c u Hc _ IH]; [reflexivity|].
  simpl. rewrite findall_nomatch; [exact IH|]. now apply match_placeholder_head.
Qed.

Lemma replace_go_skip (old new u r : str) :
  replace_go old new (List.length u) (u ++ r) = replace_go old new 0 r.
Proof.
  induction u as [|c u IH]; simpl; [|exact IH].
  destruct r; reflexivity.
Qed.

Lemma resolve_one_go (a s : str) :
  resolve_one a s = replace_go (placeholder a) (path_lookup a) 0 s.
Proof. reflexivity. Qed.

Lemma resolve_one_nil (a : str) : resolve_one a [] = [].
Proof. reflexivity. Qed.

Lemma resolve_one_match (a r : str) :
  resolve_one a (placeholder a ++ r) = path_lookup a ++ resolve_one a r.
Proof.
  rewrite !resolve_one_go.
  pose proof (prefix_of_app (placeholder a) r) as E.
  pose proof (replace_go_skip (placeholder a) (path_lookup a) (a ++ ["}"%char]) r) as K.
  rewrite <- app_assoc in K.
  rewrite placeholder_app in *.
  cbn [replace_go]. rewrite E. f_equal.
  rewrite <- K. f_equal.
  rewrite <- (app_nil_r (placeholder a)), placeholder_app.
  simpl. rewrite !length_app. simpl. lia.
Qed.

Lemma resolve_one_other (a : str) (c : ascii) (s : str) :
  word_ne a ->
  match_placeholder (c :: s) <> Some a ->
  resolve_one a (c :: s) = c :: resolve_one a s.
Proof.
  intros Ha H. rewrite !resolve_one_go. cbn [replace_go].
  destruct (prefix_of (placeholder a) (c :: s)) eqn:E; [|reflexivity].
  apply (prefix_placeholder _ Ha) in E. contradiction.
Qed.

Lemma resolve_one_through (a u r : str) :
  word_ne a ->
  Forall (fun c => c <> "{"%char) u ->
  resolve_one a (u ++ r) = u ++ resolve_one a r.
Proof.
  intros Ha. induction 1 as [|c u Hc _ IH]; [reflexivity|].
  simpl. rewrite resolve_one_other; [now rewrite IH|exact Ha|].
  now rewrite match_placeholder_head.
Qed.

Section Substitute.

Variable sel : str -> bool.

Lemma substitute_go_skip (u r : str) :
  substitute_go sel path_lookup (List.length u) (u ++ r) = substitute_go sel path_lookup 0 r.
Proof.
  induction u as [|c u IH]; simpl; [|exact IH].
  destruct r; reflexivity.
Qed.

Lemma subst_nomatch (c : ascii) (s : str) :
  match_placeholder (c :: s) = None ->
  substitute_go sel path_lookup 0 (c :: s) = c :: substitute_go sel path_lookup 0 s.
Proof. cbn [substitute_go]. now intros ->. Qed.

Lemma subst_match (w r : str) :
  word_ne w ->
  substitute_go sel path_lookup 0 (placeholder w ++ r)
  = (if sel w then path_lookup w else placeholder w) ++ substitute_go sel path_lookup 0 r.
Proof.
  intros Hw.
  pose proof (match_placeholder_intro r Hw) as E.
  rewrite placeholder_app in *. cbn [substitute_go]. rewrite E. f_equal.
  replace (List.length w + 1) with (List.length (w ++ ["}"%char]))
    by now rewrite length_app.
  change (w ++ "}"%char :: r) with (w ++ ["}"%char] ++ r).
  rewrite app_assoc. apply substitute_go_skip.
Qed.

Lemma subst_through (u r : str) :
  Forall (fun c => c <> "{"%char) u ->
  substitute_go sel path_lookup 0 (u ++ r) = u ++ substitute_go sel path_lookup 0 r.
Proof.
  induction 1 as [|c u Hc _ IH]; [reflexivity|].
  cbn [app]. rewrite subst_nomatch; [now rewrite IH|]. now apply match_placeholder_head.
Qed.

End Substitute.

(** *** The lookup expression holds no placeholder *)

Lemma path_lookup_shape (w r : str) :
  path_lookup w ++ r = "$"%char :: "{"%char :: lookup_tail w ++ r.
Proof.
  unfold path_lookup, lookup_tail.
  change (list_ascii_of_string "${") with ["$"%char; "{"%char].
  simpl. now rewrite <- !app_assoc.
Qed.

Lemma lower_char_not_brace (c : ascii) :
  is_word c = true -> lower_char c <> "{"%char.
Proof.
  destruct c as [[] [] [] [] [] [] [] []]; intros H E;
    solve [discriminate H | discriminate E].
Qed.

Lemma literal_no_brace (s : string) :
  forallb (fun c => negb (Ascii.eqb c "{")) (list_ascii_of_string s) = true ->
  Forall (fun c => c <> "{"%char) (list_ascii_of_string s).
Proof.
  intros H. apply Forall_forall. intros c Hc.
  rewrite forallb_forall in H. specialize (H c Hc).
  intros ->. discriminate H.
Qed.

Lemma no_brace_app (u v : str) :
  Forall (fun c => c <> "{"%char) u -> Forall (fun c => c <> "{"%char) v ->
  Forall (fun c => c <> "{"%char) (u ++ v).
Proof. intros Hu Hv. apply Forall_app. now split. Qed.

Lemma lower_no_brace (w : str) :
  forallb is_word w = true -> Forall (fun c => c <> "{"%char) (lower w).
Proof.
  intros Hw. unfold lower. apply Forall_forall. intros c Hc.
  apply in_map_iff in Hc as [x [<- Hx]].
  apply lower_char_not_brace. rewrite forallb_forall in Hw. now apply Hw.
Qed.

Lemma lookup_tail_no_brace (w : str) :
  forallb is_word w = true -> Forall (fun c => c <> "{"%char) (lookup_tail w).
Proof.
  intros Hw. pose proof (word_no_brace _ Hw) as Hb.
  pose proof (lower_no_brace _ Hw) as Hl.
  unfold lookup_tail.
  apply no_brace_app; [|apply literal_no_brace; reflexivity].
  apply no_brace_app; [apply literal_no_brace; reflexivity|].
  apply no_brace_app; [exact Hb|].
  apply no_brace_app; [apply literal_no_brace; reflexivity|].
  apply no_brace_app; [exact Hl|].
  apply no_brace_app; [apply literal_no_brace; reflexivity|].
  apply no_brace_app; [exact Hb|].
  apply literal_no_brace; reflexivity.
Qed.

Lemma lookup_tail_no_match (w r : str) :
  match_placeholder ("{"%char :: lookup_tail w ++ r) = None.
Proof. unfold lookup_tail. rewrite <- !app_assoc. reflexivity. Qed.

Lemma findall_lookup (w r : str) :
  forallb is_word w = true ->
  findall_placeholders (path_lookup w ++ r) = findall_placeholders r.
Proof.
  intros Hw. rewrite path_lookup_shape.
  rewrite findall_nomatch by (apply match_placeholder_head; discriminate).
  rewrite findall_nomatch by apply lookup_tail_no_match.
  apply findall_through. now apply lookup_tail_no_brace.
Qed.

Lemma resolve_one_lookup (a w r : str) :
  word_ne a -> forallb is_word w = true ->
  resolve_one a (path_lookup w ++ r) = path_lookup w ++ resolve_one a r.
Proof.
  intros Ha Hw. rewrite !path_lookup_shape.
  rewrite resolve_one_other;
    [|exact Ha|rewrite match_placeholder_head; discriminate].
  rewrite resolve_one_other;
    [|exact Ha|rewrite lookup_tail_no_match; discriminate].
  rewrite resolve_one_through; [reflexivity|exact Ha|].
  now apply lookup_tail_no_brace.
Qed.

(** *** A pass leaves the places without a match without a match *)

Section Pass.

Variable sel : str -> bool.

Lemma subst_span (s : str) :
  substitute_go sel path_lookup 0 s
  = fst (span_word s) ++ substitute_go sel path_lookup 0 (snd (span_word s)).
Proof.
  induction s as [|c s IH]; [reflexivity|]. cbn [span_word].
  destruct (is_word c) eqn:Hc; [|reflexivity].
  rewrite subst_nomatch
    by (apply match_placeholder_head; now apply is_word_not_brace).
  destruct (span_word s) as [w r]. cbn [fst snd app] in *.
  now rewrite IH.
Qed.

Lemma subst_head (r : str) :
  starts_nonword r ->
  match substitute_go sel path_lookup 0 r with
  | [] => True
  | d :: _ =>
      is_word d = false
      /\ (d = "}"%char -> exists r', r = "}"%char :: r')
  end.
Proof.
  destruct r as [|d r]; [exact (fun _ => I)|]. unfold starts_nonword. intros Hd.
  destruct (match_placeholder (d :: r)) as [w|] eqn:E.
  - destruct (match_placeholder_inv _ E) as [Hw [r' Hr]].
    rewrite Hr, subst_match by exact Hw.
    destruct (sel w).
    + rewrite path_lookup_shape. split; [reflexivity|discriminate].
    + rewrite placeholder_app. split; [reflexivity|discriminate].
  - rewrite subst_nomatch by exact E.
    split; [exact Hd|]. intros ->. now exists r.
Qed.

Lemma match_none_subst (c : ascii) (s : str) :
  match_placeholder (c :: s) = None ->
  match_placeholder (c :: substitute_go sel path_lookup 0 s) = None.
Proof.
  simpl. destruct (Ascii.eqb c "{"); [|reflexivity].
  rewrite subst_span.
  destruct (span_word_spec s) as (_ & Hw & Hr).
  pose proof (subst_head _ Hr) as Hh.
  destruct (span_word s) as [w r]. simpl in *.
  destruct (substitute_go sel path_lookup 0 r) as [|d' z] eqn:Ez.
  - rewrite app_nil_r, span_word_word by exact Hw.
    now destruct w.
  - destruct Hh as [Hd' Hb].
    rewrite span_word_app by easy.
    destruct w as [|x w]; [reflexivity|].
    destruct (Ascii.eqb d' "}") eqn:E; [|reflexivity].
    apply Ascii.eqb_eq in E. destruct (Hb E) as [r' ->].
    intros H. exact H.
Qed.

End Pass.

(** *** The loop of [replace_path_parameters] is one pass *)

Lemma findall_words (s : str) : Forall word_ne (findall_placeholders s).
Proof.
  induction s as [|c s E IH|w r Hw IH] using placeholder_ind.
  - constructor.
  - now rewrite findall_nomatch.
  - rewrite findall_match by exact Hw. now constructor.
Qed.

Lemma substitute_none (s : str) :
  substitute_go (fun _ => false) path_lookup 0 s = s.
Proof.
  induction s as [|c s E IH|w r Hw IH] using placeholder_ind.
  - reflexivity.
  - rewrite subst_nomatch by exact E. now rewrite IH.
  - rewrite subst_match by exact Hw. now rewrite IH.
Qed.

(** Only the names that occur in the template matter to a pass. *)
Lemma substitute_ext (sel sel' : str -> bool) (s : str) :
  (forall w, In w (findall_placeholders s) -> sel w = sel' w) ->
  substitute_go sel path_lookup 0 s = substitute_go sel' path_lookup 0 s.
Proof.
  induction s as [|c s E IH|w r Hw IH] using placeholder_ind; intros H.
  - reflexivity.
  - rewrite !subst_nomatch by exact E. f_equal. apply IH.
    intros w Hin. apply H. now rewrite findall_nomatch.
  - rewrite !subst_match by exact Hw.
    rewrite findall_match in H by exact Hw.
    rewrite (H w) by now left. f_equal. apply IH.
    intros v Hin. apply H. now right.
Qed.

(** One turn of the loop extends the pass by one name. *)
Lemma resolve_one_substitute (sel : str -> bool) (a s : str) :
  word_ne a ->
  resolve_one a (substitute_go sel path_lookup 0 s)
  = substitute_go (fun w => sel w || str_eqb w a) path_lookup 0 s.
Proof.
  intros Ha.
  induction s as [|c s E IH|w r Hw IH] using placeholder_ind.
  - reflexivity.
  - rewrite !subst_nomatch by exact E.
    rewrite resolve_one_other; [now rewrite IH|exact Ha|].
    rewrite match_none_subst by exact E. discriminate.
  - rewrite !subst_match by exact Hw.
    destruct (sel w) eqn:Es; cbn [orb].
    + rewrite resolve_one_lookup; [now rewrite IH|exact Ha|apply Hw].
    + destruct (str_eqb w a) eqn:Ea.
      * apply str_eqb_eq in Ea. subst w.
        rewrite resolve_one_match. now rewrite IH.
      * apply str_eqb_neq in Ea.
        pose proof (match_placeholder_intro
                      (substitute_go sel path_lookup 0 r) Hw) as M.
        rewrite placeholder_app in *.
        rewrite resolve_one_other; [|exact Ha|rewrite M; congruence].
        change (w ++ "}"%char :: substitute_go sel path_lookup 0 r)
          with (w ++ ["}"%char] ++ substitute_go sel path_lookup 0 r).
        rewrite app_assoc, resolve_one_through; [|exact Ha|].
        -- rewrite IH, <- app_assoc, placeholder_app. reflexivity.
        -- apply no_brace_app; [apply word_no_brace, Hw|].
           constructor; [discriminate|constructor].
Qed.

Lemma resolve_all_substitute (names : list str) :
  Forall word_ne names ->
  forall (sel : str -> bool) (s : str),
    fold_left (fun result param =>
                 replace (placeholder param) (path_lookup param) result)
              names (substitute_go sel path_lookup 0 s)
    = substitute_go (fun w => sel w || in_strs w names) path_lookup 0 s.
Proof.
  induction 1 as [|a names Ha _ IH]; intros sel s; cbn [fold_left].
  - apply substitute_ext. intros w _. cbn. now rewrite orb_false_r.
  - change (replace (placeholder a) (path_lookup a)
                    (substitute_go sel path_lookup 0 s))
      with (resolve_one a (substitute_go sel path_lookup 0 s)).
    rewrite resolve_one_substitute by exact Ha. rewrite IH.
    apply substitute_ext. intros w _. cbn [in_strs existsb].
    now rewrite orb_assoc.
Qed.

Lemma in_strs_In (w : str) (l : list str) : In w l -> in_strs w l = true.
Proof.
  intros H. unfold in_strs. apply existsb_exists. exists w. split; [exact H|].
  apply str_eqb_refl.
Qed.

Lemma path_lookup_expression (name : str) :
  path_lookup name = lookup_expression name.
Proof.
  unfold path_lookup, lookup_expression. rewrite <- !app_assoc. reflexivity.
Qed.

Lemma substitute_go_fun (sel : str -> bool) (f g : str -> str) :
  (forall w, f w = g w) ->
  forall (s : str) (k : nat), substitute_go sel f k s = substitute_go sel g k s.
Proof.
  intros H. induction s as [|c s IH]; intros k; cbn [substitute_go]; [reflexivity|].
  destruct k; [|apply IH].
  destruct (match_placeholder (c :: s)) as [w|]; [|now rewrite IH].
  now rewrite H, IH.
Qed.

Lemma replace_path_parameters_pass (path : str) :
  replace_path_parameters path = substitute_placeholders path_lookup path.
Proof.
  unfold replace_path_parameters, substitute_placeholders, extract_path_parameters.
  rewrite <- (substitute_none path) at 2.
  rewrite resolve_all_substitute by apply findall_words.
  apply substitute_ext. intros w Hw. simpl. now apply in_strs_In.
Qed.

Lemma findall_substituted (s : str) :
  findall_placeholders (substitute_placeholders path_lookup s) = [].
Proof.
  unfold substitute_placeholders.
  induction s as [|c s E IH|w r Hw IH] using placeholder_ind.
  - reflexivity.
  - rewrite subst_nomatch by exact E.
    rewrite findall_nomatch; [exact IH|]. now apply match_none_subst.
  - rewrite subst_match by exact Hw. cbv beta iota.
    rewrite findall_lookup; [exact IH|apply Hw].
Qed.

(* ================================================================= *)
(** ** The server URL (sections 4.1 and 7) *)

Lemma server_url_ok_inv (openapi_spec url : value) :
  server_url openapi_spec = Ok url -> servers_usable openapi_spec.
Proof.
  unfold server_url, servers_usable.
  destruct openapi_spec as [| | | | |d]; try discriminate. simpl.
  destruct (lookup "servers" d) as [servers|]; [|now left].
  right. destruct servers as [| | |[|c t]|[|x l]|]; try discriminate.
  now exists x, l.
Qed.

Lemma parse_spec_ok_servers (self self' : OpenAPIToK6) :
  parse_spec self = Ok self' -> servers_usable (spec self).
Proof.
  unfold parse_spec.
  destruct (py_get (spec self) "paths" (VDict [])) as [paths|]; [|discriminate].
  cbn [bind].
  destruct (server_url (spec self)) as [url|] eqn:E; [|discriminate].
  intros _. exact (server_url_ok_inv _ E).
Qed.

Lemma generate_k6_script_ok_servers (self : OpenAPIToK6) (script : str) :
  generate_k6_script self = Ok script -> servers_usable (spec self).
Proof.
  unfold generate_k6_script, script_parts.
  destruct (server_url (spec self)) as [url|] eqn:E; [|discriminate].
  intros _. exact (server_url_ok_inv _ E).
Qed.

(** C10.  Extraction and script assembly return a result only when the
    [servers] entry of the spec is absent or is a list with a first element.
    When [servers] is present and is the empty list, the base-URL lookup
    indexes element 0 of the empty list: [parse_spec], [generate_k6_script]
    and [generate] all raise [IndexError] and never reach the default host;
    when [servers] is absent the URL is the default host. *)
Theorem empty_servers_abort :
  forall (d : list (str * value)) (key : option str),
    (lookup "servers" d = Some (VList []) ->
       parse_spec (init (VDict d) key) = Raise IndexError
       /\ generate_k6_script (init (VDict d) key) = Raise IndexError
       /\ generate (init (VDict d) key) = Raise IndexError)
    /\ (lookup "servers" d = None ->
          server_url (VDict d) = Ok (VStr "http://localhost"))
    /\ (forall self',
          parse_spec (init (VDict d) key) = Ok self' -> servers_usable (VDict d))
    /\ (forall script,
          generate_k6_script (init (VDict d) key) = Ok script ->
          servers_usable (VDict d)).
Proof.
  intros d key. repeat split.
  - unfold parse_spec, server_url. simpl. now rewrite H.
  - unfold generate_k6_script, script_parts, server_url. simpl. now rewrite H.
  - unfold generate, parse_spec, server_url. simpl. now rewrite H.
  - intros H. unfold server_url. simpl. now rewrite H.
  - intros self' H. exact (parse_spec_ok_servers _ H).
  - intros script H. exact (generate_k6_script_ok_servers _ H).
Qed.

Lemma empty_servers_abort_witness :
  lookup "servers" (entries Samples.no_server_spec) = Some (VList [])
  /\ parse_spec (init Samples.no_server_spec None) = Raise IndexError
  /\ generate_k6_script (init Samples.no_server_spec None) = Raise IndexError
  /\ generate (init Samples.no_server_spec None) = Raise IndexError.
Proof.
  split; [reflexivity|].
  exact (proj1 (empty_servers_abort (entries Samples.no_server_spec) None) eq_refl).
Defined.

(* ================================================================= *)
(** ** The run as a function of the spec *)

(** The script is assembled from the spec and the endpoints alone. *)
Lemma generate_k6_script_fields (a b : OpenAPIToK6) :
  spec a = spec b -> endpoints a = endpoints b ->
  generate_k6_script a = generate_k6_script b.
Proof.
  intros Hs He. unfold generate_k6_script, script_parts. now rewrite Hs, He.
Qed.

(** What [parse_spec] makes of a fresh object. *)
Lemma parse_spec_init (openapi_spec : value) (key : option str) (self' : OpenAPIToK6) :
  parse_spec (init openapi_spec key) = Ok self' ->
  spec self' = openapi_spec
  /\ auth_key self' = key
  /\ tracked_values self' = []
  /\ parse_spec (init openapi_spec None)
     = Ok {| spec := openapi_spec; auth_key := None; tracked_values := [];
             endpoints := endpoints self' |}.
Proof.
  unfold parse_spec, init. cbn [spec auth_key tracked_values endpoints app].
  destruct (py_get openapi_spec "paths" (VDict [])) as [paths|]; [|discriminate].
  cbn [bind].
  destruct (server_url openapi_spec) as [url|]; [|discriminate]. cbn [bind].
  destruct (py_items paths) as [items|]; [|discriminate]. cbn [bind].
  destruct (parse_paths url items) as [eps|]; [|discriminate]. cbn [bind].
  intros E. injection E as <-. repeat split.
Qed.

Lemma parse_spec_raise (openapi_spec : value) (k1 k2 : option str) (e : exn) :
  parse_spec (init openapi_spec k1) = Raise e ->
  parse_spec (init openapi_spec k2) = Raise e.
Proof.
  unfold parse_spec, init. cbn [spec auth_key tracked_values endpoints app].
  destruct (py_get openapi_spec "paths" (VDict [])) as [paths|]; [|easy].
  cbn [bind].
  destruct (server_url openapi_spec) as [url|]; [|easy]. cbn [bind].
  destruct (py_items paths) as [items|]; [|easy]. cbn [bind].
  destruct (parse_paths url items) as [eps|]; [|easy]. cbn [bind].
  discriminate.
Qed.

(** [parse_spec] appends: called again on the object it returned, it
    appends the same endpoints a second time. *)
Lemma parse_spec_again (openapi_spec : value) (key : option str) (s1 : OpenAPIToK6) :
  parse_spec (init openapi_spec key) = Ok s1 ->
  exists s2, parse_spec s1 = Ok s2 /\ endpoints s2 = endpoints s1 ++ endpoints s1.
Proof.
  unfold parse_spec, init. cbn [spec auth_key tracked_values endpoints app].
  destruct (py_get openapi_spec "paths" (VDict [])) as [paths|] eqn:Ep; [|discriminate].
  cbn [bind].
  destruct (server_url openapi_spec) as [url|] eqn:Eu; [|discriminate]. cbn [bind].
  destruct (py_items paths) as [items|] eqn:Ei; [|discriminate]. cbn [bind].
  destruct (parse_paths url items) as [eps|] eqn:Ee; [|discriminate]. cbn [bind].
  intros E. apply Ok_inj in E. subst s1. cbn [spec endpoints].
  rewrite Ep. cbn [bind]. rewrite Eu. cbn [bind]. rewrite Ei. cbn [bind].
  rewrite Ee. cbn [bind]. eexists. split; reflexivity.
Qed.

(** The script of a run on a fresh object, whatever the key. *)
Lemma script_of_generate (openapi_spec : value) (key : option str) :
  script_of (generate (init openapi_spec key))
  = script_of (generate (init openapi_spec None)).
Proof.
  unfold generate.
  destruct (parse_spec (init openapi_spec key)) as [self'|e] eqn:E.
  - destruct (parse_spec_init _ _ E) as (Hs & _ & _ & ->). cbn [bind].
    rewrite (@generate_k6_script_fields self'
               {| spec := openapi_spec; auth_key := None; tracked_values := [];
                  endpoints := endpoints self' |}) by easy.
    now destruct (generate_k6_script _).
  - now rewrite (parse_spec_raise _ _ None E).
Qed.

(** C9.  The key given to the generator has no influence on the script:
    for every spec, any two keys (none included) give the same script
    text, or the same exception. *)
Theorem auth_key_never_read :
  forall (openapi_spec : value) (k1 k2 : option str),
    script_of (generate (init openapi_spec k1))
    = script_of (generate (init openapi_spec k2)).
Proof.
  intros openapi_spec k1 k2.
  now rewrite (script_of_generate _ k1), (script_of_generate _ k2).
Qed.

(** C8.  A run leaves the spec and the key of the object as they were
    given, so the same pipeline started again from them returns the same
    script text, character for character. *)
Theorem generate_deterministic :
  forall (openapi_spec : value) (key : option str) (script : str)
         (self' : OpenAPIToK6),
    generate (init openapi_spec key) = Ok (script, self') ->
    spec self' = openapi_spec
    /\ auth_key self' = key
    /\ generate (init (spec self') (auth_key self')) = Ok (script, self').
Proof.
  intros openapi_spec key script self'. unfold generate.
  destruct (parse_spec (init openapi_spec key)) as [s1|] eqn:E; [|discriminate].
  cbn [bind].
  destruct (generate_k6_script s1) as [t|] eqn:G; [|discriminate]. cbn [bind].
  intros H. injection H as <- <-.
  destruct (parse_spec_init _ _ E) as (Hs & Hk & _ & _).
  rewrite Hs, Hk, E. cbn [bind]. now rewrite G.
Qed.

Lemma generate_deterministic_witness :
  exists script self',
    generate (init Samples.franchise_spec (Some ("k" : str))) = Ok (script, self')
    /\ spec self' = Samples.franchise_spec
    /\ auth_key self' = Some ("k" : str)
    /\ generate (init (spec self') (auth_key self')) = Ok (script, self').
Proof.
  destruct (generate (init Samples.franchise_spec (Some ("k" : str))))
    as [[script self']|e] eqn:E; [|discriminate E].
  exists script, self'. split; [reflexivity|].
  exact (generate_deterministic _ _ E).
Defined.

(* ================================================================= *)
(** ** Endpoint extraction (section 4.1) *)

Lemma parse_operations_origin (base_url : value) (path : str)
    (ops : list (str * value)) (eps : list Endpoint) :
  parse_operations base_url path ops = Ok eps ->
  Forall (fun ep =>
            ep_path ep = path
            /\ exists method,
                 In (method, ep_operation ep) ops
                 /\ in_strs (lower method) http_methods = true
                 /\ ep_method ep = upper method
                 /\ (lookup "operationId" (entries (ep_operation ep)) = None ->
                     ep_operation_id ep = VStr (default_operation_id method path)))
         eps.
Proof.
  revert eps. induction ops as [|[method operation] ops IH]; intros eps;
    cbn [parse_operations].
  - intros E. injection E as <-. constructor.
  - destruct (in_strs (lower method) http_methods) eqn:Hm.
    + destruct operation as [| | | | |d]; try discriminate. cbn [py_get bind].
      destruct (parse_operations base_url path ops) as [more|];
        cbn [bind]; [|discriminate].
      intros E. injection E as <-. constructor.
      * cbn [ep_path ep_method ep_operation ep_operation_id entries].
        split; [reflexivity|]. exists method.
        split; [now left|]. split; [exact Hm|]. split; [reflexivity|].
        intros ->. reflexivity.
      * eapply Forall_impl; [|exact (IH _ eq_refl)].
        intros ep (Hp & m & Hin & H). split; [exact Hp|]. exists m.
        split; [now right|exact H].
    + intros E. eapply Forall_impl; [|exact (IH _ E)].
      intros ep (Hp & m & Hin & H). split; [exact Hp|]. exists m.
        split; [now right|exact H].
Qed.

Lemma parse_paths_origin (base_url : value) (paths : list (str * value))
    (eps : list Endpoint) :
  parse_paths base_url paths = Ok eps -> Forall (extracted_from paths) eps.
Proof.
  revert eps. induction paths as [|[path item] paths IH]; intros eps;
    cbn [parse_paths].
  - intros E. injection E as <-. constructor.
  - assert (Hweak : forall l, Forall (extracted_from paths) l ->
                              Forall (extracted_from ((path, item) :: paths)) l).
    { intros l. apply Forall_impl.
      intros ep (Ha & it & m & Hin & H). split; [exact Ha|].
      exists it, m. split; [now right|exact H]. }
    destruct (contains "/admin" path) eqn:Hadm.
    + intros E. apply Hweak. now apply IH.
    + destruct item as [| | | | |d]; try discriminate. cbn [py_items bind].
      destruct (parse_operations base_url path d) as [here|] eqn:Eh;
        cbn [bind]; [|discriminate].
      destruct (parse_paths base_url paths) as [more|]; cbn [bind]; [|discriminate].
      intros E. injection E as <-. apply Forall_app. split.
      * eapply Forall_impl; [|exact (parse_operations_origin _ _ _ Eh)].
        intros ep (Hp & m & Hin & Hm & Hu & Hid). split; [now rewrite Hp|].
        exists (VDict d), m. rewrite Hp. repeat split; auto. now left.
      * apply Hweak. now apply IH.
Qed.

(** The endpoints of a fresh object after [parse_spec]. *)
Lemma parse_spec_origin (openapi_spec : value) (key : option str)
    (self' : OpenAPIToK6) :
  parse_spec (init openapi_spec key) = Ok self' ->
  Forall (extracted_from (entries (field openapi_spec "paths" (VDict []))))
         (endpoints self').
Proof.
  unfold parse_spec, init. cbn [spec auth_key tracked_values endpoints app].
  destruct openapi_spec as [| | | | |d]; try discriminate. cbn [py_get bind].
  destruct (server_url (VDict d)) as [url|]; [|discriminate]. cbn [bind].
  unfold field. cbn [entries].
  destruct (match lookup "paths" d with Some x => x | None => VDict [] end)
    as [| | | | |items]; try discriminate.
  cbn [py_items bind entries].
  destruct (parse_paths url items) as [eps|] eqn:E; [|discriminate]. cbn [bind].
  intros H. injection H as <-. cbn [endpoints].
  exact (parse_paths_origin _ _ E).
Qed.

(** *** The default identifier *)

Lemma replace_char (c : ascii) (new s : str) :
  replace [c] new s = flat_map (fun x => if Ascii.eqb c x then new else [x]) s.
Proof.
  unfold replace. induction s as [|x s IH]; [reflexivity|].
  cbn [replace_go prefix_of flat_map List.length Nat.sub].
  destruct (Ascii.eqb c x); cbn [andb]; now rewrite IH.
Qed.

Lemma default_operation_id_slug (method path : str) :
  default_operation_id method path = method ++ "_" ++ path_slug path.
Proof.
  unfold default_operation_id, path_slug. do 2 f_equal.
  change (list_ascii_of_string "}") with ["}"%char].
  change (list_ascii_of_string "{") with ["{"%char].
  change (list_ascii_of_string "/") with ["/"%char].
  rewrite !replace_char.
  induction path as [|c path IH]; [reflexivity|].
  cbn [flat_map]. rewrite !flat_map_app, IH. f_equal.
  unfold slug_char. rewrite (Ascii.eqb_sym c "/"), (Ascii.eqb_sym c "{"),
    (Ascii.eqb_sym c "}").
  destruct (Ascii.eqb "/" c) eqn:E1; [reflexivity|]. cbn [flat_map app].
  destruct (Ascii.eqb "{" c) eqn:E2; [reflexivity|]. cbn [flat_map app orb].
  destruct (Ascii.eqb "}" c) eqn:E3; reflexivity.
Qed.

(** C4 as the specification words it fails: the slash is not stripped, it
    becomes an underscore. *)
Lemma operation_id_not_stripped :
  map ep_operation_id (endpoints_of (parse_spec (init Samples.users_spec None)))
  = [VStr "get__users"; VStr "put__users_userId"]
  /\ [VStr (stripped_operation_id "get" "/users");
      VStr (stripped_operation_id "put" "/users/{userId}")]
     = [VStr "get_users"; VStr "put_usersuserId"]
  /\ map ep_operation_id (endpoints_of (parse_spec (init Samples.users_spec None)))
     <> [VStr (stripped_operation_id "get" "/users");
         VStr (stripped_operation_id "put" "/users/{userId}")].
Proof.
  split; [reflexivity|]. split; [reflexivity|].
  intros H. vm_compute in H. discriminate H.
Qed.

(* ================================================================= *)
(** ** The header block and the [/admin] exclusion (sections 4.1 and 4.7) *)

Lemma join_app (sep : str) (a b : list str) :
  a <> [] -> b <> [] -> join sep (a ++ b) = join sep a ++ sep ++ join sep b.
Proof.
  intros Ha Hb. induction a as [|x a IH]; [contradiction|].
  destruct a as [|y a].
  - destruct b; [contradiction|reflexivity].
  - change (join sep ((x :: y :: a) ++ b))
      with (x ++ sep ++ join sep ((y :: a) ++ b)).
    rewrite IH by discriminate.
    change (join sep (x :: y :: a)) with (x ++ sep ++ join sep (y :: a)).
    now rewrite <- !app_assoc.
Qed.

(** A run of consecutive parts is a run of consecutive characters of the
    joined text. *)
Lemma infix_join (sep : str) (a b c : list str) :
  b <> [] -> infix_of (join sep b) (join sep (a ++ b ++ c)).
Proof.
  intros Hb. unfold infix_of.
  assert (Hbc : b ++ c <> []) by (destruct b; [contradiction|discriminate]).
  destruct a as [|x a], c as [|z c].
  - exists [], []. now rewrite !app_nil_r.
  - exists [], (sep ++ join sep (z :: c)).
    cbn [app]. now rewrite join_app by (assumption || discriminate).
  - exists (join sep (x :: a) ++ sep), [].
    rewrite !app_nil_r, join_app by (assumption || discriminate).
    now rewrite <- !app_assoc.
  - exists (join sep (x :: a) ++ sep), (sep ++ join sep (z :: c)).
    rewrite join_app by (assumption || discriminate).
    rewrite (join_app sep (a := b)) by (assumption || discriminate).
    now rewrite <- !app_assoc.
Qed.

Lemma headers_code_not_nil (i : nat) (path : str) : headers_code i path <> [].
Proof. discriminate. Qed.

(** The header block of a path outside [/admin]. *)
Lemma headers_code_auth (i : nat) (path : str) :
  contains "/admin" path = false ->
  headers_code i path
  = [ "    const headers" ++ str_of_nat i ++ " = {";
      "        'Content-Type': 'application/json'," : str;
      auth_header_line;
      "    };" : str ].
Proof. intros H. unfold headers_code. now rewrite H. Qed.

(** The guard of [generate_k6_script]: no such line for an [/admin] path. *)
Lemma headers_code_admin (i : nat) (path : str) :
  contains "/admin" path = true -> ~ In auth_header_line (headers_code i path).
Proof.
  intros H. unfold headers_code. rewrite H. cbn [negb app In].
  intros [E|[E|[E|[]]]]; discriminate E.
Qed.

(** The header block is a run of the parts of its endpoint. *)
Lemma endpoint_block_headers (k : nat) (ep : Endpoint) (block : list str) :
  endpoint_block k ep = Ok block ->
  exists before after, block = before ++ headers_code k (ep_path ep) ++ after.
Proof.
  unfold endpoint_block.
  destruct (request_body k (ep_method ep) (ep_operation ep)) as [body|];
    cbn [bind]; [|discriminate].
  destruct (tracker_code k ep) as [tracker|]; cbn [bind]; [|discriminate].
  intros E. apply Ok_inj in E. subst block.
  match goal with
  | |- exists before after, ?pre ++ _ ++ ?post = _ => exists pre, post
  end.
  reflexivity.
Qed.

(** The header block of endpoint number [k + j] is a run of the parts. *)
Lemma endpoint_blocks_headers (eps : list Endpoint) :
  forall (k j : nat) (blocks : list str) (ep : Endpoint),
    endpoint_blocks k eps = Ok blocks ->
    nth_error eps j = Some ep ->
    exists before after,
      blocks = before ++ headers_code (k + j) (ep_path ep) ++ after.
Proof.
  induction eps as [|ep0 eps IH]; intros k j blocks ep.
  - destruct j; discriminate.
  - cbn [endpoint_blocks].
    destruct (endpoint_block k ep0) as [block|] eqn:Eb; cbn [bind]; [|discriminate].
    destruct (endpoint_blocks (S k) eps) as [more|] eqn:Em; cbn [bind];
      [|discriminate].
    intros E Hn. injection E as <-.
    destruct j as [|j]; cbn [nth_error] in Hn.
    + injection Hn as <-. rewrite Nat.add_0_r.
      destruct (endpoint_block_headers _ _ Eb) as (before & after & ->).
      exists before, (after ++ more). now rewrite <- !app_assoc.
    + destruct (IH (S k) j more ep Em Hn) as (before & after & ->).
      exists (block ++ before), after.
      replace (k + S j) with (S k + j) by lia.
      now rewrite <- app_assoc.
Qed.

(* ================================================================= *)
(** ** The value tracker (section 4.4) *)

Lemma contains_infix (a b : str) : contains a b = true -> infix_of a b.
Proof.
  induction b as [|c b IH]; cbn [contains]; intros H.
  - rewrite orb_false_r in H. apply prefix_of_inv in H as [r Hr].
    exists [], r. exact Hr.
  - apply orb_true_iff in H as [H|H].
    + apply prefix_of_inv in H as [r Hr]. exists [], r. exact Hr.
    + destruct (IH H) as (pre & post & ->). now exists (c :: pre), post.
Qed.

Lemma lookup_dict_set_same (k : str) (v : value) (d : list (str * value)) :
  lookup k (dict_set k v d) = Some v.
Proof.
  induction d as [|[k' v'] d IH]; cbn [dict_set lookup].
  - now rewrite str_eqb_refl.
  - destruct (str_eqb k k') eqn:E; cbn [lookup]; rewrite E; [reflexivity|exact IH].
Qed.

Lemma lookup_dict_set_other (k k' : str) (v : value) (d : list (str * value)) :
  str_eqb k' k = false -> lookup k' (dict_set k v d) = lookup k' d.
Proof.
  intros Hk. induction d as [|[k0 v0] d IH]; cbn [dict_set lookup].
  - now rewrite Hk.
  - destruct (str_eqb k k0) eqn:E; cbn [lookup].
    + apply str_eqb_eq in E. subst k0. now rewrite Hk.
    + now rewrite IH.
Qed.

(** Setting the [method] entry keeps the operation well formed. *)
Lemma wf_operation_merge (d : list (str * value)) (m : value) :
  wf_operation (VDict (dict_set "method" m d)) = wf_operation (VDict d).
Proof.
  unfold wf_operation, field. cbn [is_dict entries].
  now rewrite lookup_dict_set_other by reflexivity.
Qed.

Lemma param_trackers_ok (operation : value) (res_var : str) (params : list str) :
  wf_operation operation = true ->
  is_ok (param_trackers operation res_var params) = true.
Proof.
  intros Hwf. induction params as [|param params IH]; [reflexivity|].
  cbn [param_trackers].
  destruct (contains "id" (lower param) || contains "franchise" (lower param));
    [|exact IH].
  rewrite find_response_value_extractor_wf by exact Hwf. cbn [bind].
  destruct (param_trackers operation res_var params) as [more|]; [|discriminate].
  cbn [bind]. now destruct (response_extractor operation param) as [[|c e]|].
Qed.

(** The tracker of a POST on a franchise path ends with the franchise
    block, a part of its own. *)
Lemma generate_value_tracker_franchise (path : str) (d : list (str * value))
    (res_var text : str) :
  contains "franchise" (lower path) = true ->
  generate_value_tracker path (VDict (dict_set "method" (VStr "POST") d)) res_var
  = Ok text ->
  exists blocks, text = join nl (blocks ++ [franchise_tracker res_var]).
Proof.
  intros Hp. unfold generate_value_tracker, operation_method.
  cbn [py_get]. rewrite lookup_dict_set_same. cbn [bind].
  change (upper "POST") with ("POST" : str).
  change (in_strs "POST" ["POST" : str; "PUT" : str]) with true.
  destruct (param_trackers _ res_var (extract_path_parameters path)) as [blocks|];
    cbn [bind]; [|discriminate].
  rewrite Hp. change (str_eqb "POST" "POST") with true. cbn [andb].
  intros E. apply Ok_inj in E. now exists blocks.
Qed.

Lemma franchise_tracker_capture (res_var : str) :
  infix_of franchise_capture (franchise_tracker res_var).
Proof.
  unfold franchise_capture, franchise_tracker.
  apply (infix_join nl [_; _; _; _] (b := [_; _; _; _; _; _; _]) [_; _; _; _]).
  discriminate.
Qed.

(* ================================================================= *)
(** ** Request-body synthesis (section 4.6) *)

(** C3.  On the schema with [name] of type string and [active] of type
    boolean with default [true], body synthesis writes the placeholder
    literal for [name] and, for [active], the text Python gives the
    default, [True] with a capital, which is not the literal [true] of the
    script language. *)
Theorem request_body_boolean_default :
  generate_request_body Samples.name_active_schema "body0"
  = Ok (join nl [ "    const body0 = {" : str;
                  "        name: 'name_value'," : str;
                  "        active: True" : str;
                  "    };" : str ])
  /\ body_part "active" (Samples.dict [("type", VStr "boolean"); ("default", VBool true)])
     = Ok (Some ("        active: True" : str))
  /\ ("        active: True" : str) <> ("        active: true" : str).
Proof.
  split; [reflexivity|]. split; [reflexivity|].
  intros H. vm_compute in H. discriminate H.
Qed.

Lemma body_part_no_default (prop_name : str) (d : list (str * value)) :
  lookup "default" d = None ->
  body_part prop_name (VDict d)
  = let prop_type := match lookup "type" d with Some t => t | None => VStr "string" end in
    if is_str "string" prop_type then
      Ok (Some ("        " ++ prop_name ++ ": " ++ string_branch_value prop_name))
    else if is_str "integer" prop_type || is_str "number" prop_type then
      Ok (Some ("        " ++ prop_name ++ ": 0"))
    else if is_str "boolean" prop_type then
      Ok (Some ("        " ++ prop_name ++ ": False"))
    else if is_str "array" prop_type then
      Ok (Some ("        " ++ prop_name ++ ": []"))
    else if is_str "object" prop_type then
      Ok (Some ("        " ++ prop_name ++ ": {}"))
    else Ok None.
Proof.
  intros Hd. unfold body_part. cbn [py_get bind]. rewrite Hd. cbv zeta.
  destruct (is_str "string" _).
  - unfold string_branch_value.
    now destruct (contains "id" (lower prop_name)
                  || contains "franchise" (lower prop_name)).
  - reflexivity.
Qed.

(** A request-body property without a declared default and without a
    declared type goes through the string branch; one whose declared type
    is none of string, integer, number, boolean, array, object gets no
    line. *)
Lemma body_part_untyped :
  forall (prop_name : str) (d : list (str * value)),
    lookup "default" d = None ->
    (lookup "type" d = None ->
       body_part prop_name (VDict d)
       = Ok (Some ("        " ++ prop_name ++ ": " ++ string_branch_value prop_name)))
    /\ (forall t, lookup "type" d = Some t -> recognized_type t = false ->
          body_part prop_name (VDict d) = Ok None
          /\ forall rest, body_parts ((prop_name, VDict d) :: rest) = body_parts rest).
Proof.
  intros prop_name d Hd. split.
  - intros Ht. rewrite body_part_no_default by exact Hd. now rewrite Ht.
  - intros t Ht Hr.
    assert (E : body_part prop_name (VDict d) = Ok None).
    { rewrite body_part_no_default by exact Hd. rewrite Ht. cbv zeta.
      unfold recognized_type, recognized_types in Hr. cbn [existsb] in Hr.
      repeat (apply orb_false_iff in Hr as [? Hr]).
      repeat match goal with H : is_str _ t = false |- _ => rewrite H; clear H end.
      reflexivity. }
    split; [exact E|]. intros rest. cbn [body_parts]. rewrite E. cbn [bind].
    now destruct (body_parts rest).
Qed.

Lemma body_part_untyped_witness :
  lookup "default" (entries (Samples.dict [("type", VStr "uuid")])) = None
  /\ lookup "type" (entries (Samples.dict [("type", VStr "uuid")])) = Some (VStr "uuid")
  /\ recognized_type (VStr "uuid") = false
  /\ body_part "tag" (Samples.dict [("type", VStr "uuid")]) = Ok None
  /\ body_part "tag" (Samples.dict []) = Ok (Some ("        tag: 'tag_value'" : str)).
Proof.
  split; [reflexivity|]. split; [reflexivity|]. split; [reflexivity|]. split.
  - exact (proj1 (proj2 (body_part_untyped "tag"
                           (entries (Samples.dict [("type", VStr "uuid")])) eq_refl)
                        (VStr "uuid") eq_refl eq_refl)).
  - exact (proj1 (body_part_untyped "tag" [] eq_refl) eq_refl).
Defined.

(** No line for a property of a type outside the six names, so not every
    such property goes through the string branch. *)
Lemma unrecognized_type_omitted :
  ~ (forall (prop_name : str) (d : list (str * value)),
        lookup "default" d = None ->
        (lookup "type" d = None
         \/ exists t, lookup "type" d = Some t /\ recognized_type t = false) ->
        body_part prop_name (VDict d)
        = Ok (Some ("        " ++ prop_name ++ ": " ++ string_branch_value prop_name)))
  /\ generate_request_body Samples.tagged_schema "body0" = Ok [].
Proof.
  split; [|reflexivity].
  intros H.
  specialize (H "tag" (entries (Samples.dict [("type", VStr "uuid")])) eq_refl).
  assert (Hc : body_part "tag" (VDict (entries (Samples.dict [("type", VStr "uuid")])))
               = Ok None) by reflexivity.
  rewrite Hc in H.
  assert (Hf : Ok None = Ok (Some ("        " ++ "tag" ++ ": " ++ string_branch_value "tag"))).
  { apply H. right. exists (VStr "uuid"). split; reflexivity. }
  discriminate Hf.
Qed.

(* ================================================================= *)
(** ** Further properties: path parameters *)

Lemma infix_of_cons (a b : str) (c : ascii) : infix_of a b -> infix_of a (c :: b).
Proof. intros (pre & post & ->). now exists (c :: pre), post. Qed.

Lemma infix_of_app_l (a b u : str) : infix_of a b -> infix_of a (u ++ b).
Proof. intros (pre & post & ->). exists (u ++ pre), post. now rewrite <- app_assoc. Qed.

(** An opening brace of [u ++ r] lies in [r] when [u] has none. *)
Lemma no_brace_split (u pre x r : str) :
  Forall (fun c => c <> "{"%char) u ->
  pre ++ "{"%char :: x = u ++ r ->
  exists pre', r = pre' ++ "{"%char :: x.
Proof.
  intros Hu. revert pre. induction Hu as [|c u Hc _ IH]; intros pre E.
  - now exists pre.
  - destruct pre as [|c' pre]; cbn [app] in E.
    + injection E as E _. congruence.
    + injection E as _ E. exact (IH _ E).
Qed.

Lemma findall_sound (path w : str) :
  In w (findall_placeholders path) -> word_ne w /\ infix_of (placeholder w) path.
Proof.
  induction path as [|c s E IH|v r Hv IH] using placeholder_ind.
  - intros [].
  - rewrite findall_nomatch by exact E. intros H.
    destruct (IH H) as [Hw Hi]. split; [exact Hw|now apply infix_of_cons].
  - rewrite findall_match by exact Hv. intros [<-|H].
    + split; [exact Hv|]. now exists [], r.
    + destruct (IH H) as [Hw Hi]. split; [exact Hw|now apply infix_of_app_l].
Qed.

Lemma findall_complete (path w : str) :
  word_ne w -> infix_of (placeholder w) path -> In w (findall_placeholders path).
Proof.
  intros Hw Hi.
  induction path as [|c s E IH|v r Hv IH] using placeholder_ind.
  - destruct Hi as (pre & post & Hp). rewrite placeholder_app in Hp.
    destruct pre; discriminate Hp.
  - rewrite findall_nomatch by exact E. apply IH.
    destruct Hi as ([|c' pre] & post & Hp); cbn [app] in Hp.
    + rewrite Hp, match_placeholder_intro in E by exact Hw. discriminate E.
    + injection Hp as _ Hp. now exists pre, post.
  - rewrite findall_match by exact Hv.
    destruct Hi as ([|c' pre] & post & Hp); cbn [app] in Hp.
    + left. pose proof (match_placeholder_intro r Hv) as M.
      rewrite Hp, match_placeholder_intro in M by exact Hw. congruence.
    + right. apply IH.
      rewrite !placeholder_app in Hp. injection Hp as _ Hp.
      change (v ++ "}"%char :: r) with (v ++ ["}"%char] ++ r) in Hp.
      rewrite app_assoc in Hp. symmetry in Hp.
      apply no_brace_split in Hp as [pre' ->].
      * exists pre', post. now rewrite placeholder_app.
      * apply no_brace_app; [apply word_no_brace, Hv|].
        constructor; [discriminate|constructor].
Qed.

(** X1.  On a path of ASCII text, a name is among the extracted path
    parameters exactly when it is a non-empty run of word characters that
    occurs in the path between braces. *)
Theorem extract_path_parameters_iff :
  forall (path w : str),
    Plain.ascii_text path = true ->
    (In w (extract_path_parameters path)
     <-> word_ne w /\ infix_of (placeholder w) path).
Proof.
  unfold extract_path_parameters. intros path w _. split.
  - apply findall_sound.
  - intros [Hw Hi]. now apply findall_complete.
Qed.

Lemma extract_path_parameters_iff_witness :
  Plain.ascii_text "/items/{itemId}/sub" = true
  /\ word_ne "itemId"
  /\ infix_of (placeholder "itemId") "/items/{itemId}/sub"
  /\ In ("itemId" : str) (extract_path_parameters "/items/{itemId}/sub").
Proof.
  assert (Hw : word_ne "itemId") by (split; [discriminate|reflexivity]).
  assert (Hi : infix_of (placeholder "itemId") "/items/{itemId}/sub")
    by (exists (list_ascii_of_string "/items/"), (list_ascii_of_string "/sub");
        reflexivity).
  split; [reflexivity|]. split; [exact Hw|]. split; [exact Hi|].
  exact (proj2 (extract_path_parameters_iff "/items/{itemId}/sub" "itemId" eq_refl)
               (conj Hw Hi)).
Defined.

(** X2.  Text without an opening brace in front of a placeholder adds no
    name: the name of the placeholder comes first, then the names of what
    follows it, repeated names included. *)
Theorem extract_path_parameters_step :
  forall (u w r : str),
    Forall (fun c => c <> "{"%char) u ->
    word_ne w ->
    extract_path_parameters (u ++ placeholder w ++ r)
    = w :: extract_path_parameters r.
Proof.
  intros u w r Hu Hw. unfold extract_path_parameters.
  rewrite findall_through by exact Hu. now apply findall_match.
Qed.

Lemma extract_path_parameters_step_witness :
  extract_path_parameters ("/a/" ++ placeholder "id" ++ "/b/{id}")
  = ("id" : str) :: extract_path_parameters "/b/{id}".
Proof.
  apply extract_path_parameters_step.
  - apply literal_no_brace. reflexivity.
  - split; [discriminate|reflexivity].
Defined.

(** X3.  Resolving a resolved path changes nothing. *)
Theorem replace_path_parameters_idempotent :
  forall path : str,
    replace_path_parameters (replace_path_parameters path)
    = replace_path_parameters path.
Proof.
  intros path. unfold replace_path_parameters at 1.
  unfold extract_path_parameters.
  now rewrite replace_path_parameters_pass, findall_substituted.
Qed.

Lemma findall_no_brace (u : str) :
  Forall (fun c => c <> "{"%char) u -> findall_placeholders u = [].
Proof.
  intros Hu. rewrite <- (app_nil_r u). now rewrite findall_through.
Qed.

(** X4.  A path without an opening brace is left as it is, and text
    without an opening brace in front of a placeholder is copied, followed
    by the lookup expression of the placeholder and the resolved rest. *)
Theorem replace_path_parameters_step :
  forall (u w r : str),
    Forall (fun c => c <> "{"%char) u ->
    replace_path_parameters u = u
    /\ (word_ne w ->
        replace_path_parameters (u ++ placeholder w ++ r)
        = u ++ path_lookup w ++ replace_path_parameters r).
Proof.
  intros u w r Hu. split.
  - unfold replace_path_parameters, extract_path_parameters.
    now rewrite findall_no_brace.
  - intros Hw. rewrite !replace_path_parameters_pass.
    unfold substitute_placeholders.
    rewrite subst_through by exact Hu. now rewrite subst_match.
Qed.

Lemma replace_path_parameters_step_witness :
  replace_path_parameters "/health" = "/health"
  /\ replace_path_parameters ("/a/" ++ placeholder "id" ++ "/b")
     = "/a/" ++ path_lookup "id" ++ replace_path_parameters "/b".
Proof.
  assert (Hu : forall s : string,
             forallb (fun c => negb (Ascii.eqb c "{")) (list_ascii_of_string s) = true ->
             Forall (fun c => c <> "{"%char) (list_ascii_of_string s))
    by exact literal_no_brace.
  split.
  - exact (proj1 (replace_path_parameters_step "id" "" (Hu "/health" eq_refl))).
  - apply (proj2 (replace_path_parameters_step "id" "/b" (Hu "/a/" eq_refl))).
    split; [discriminate|reflexivity].
Defined.

(* ================================================================= *)
(** ** Further properties: endpoint extraction *)

Lemma in_strs_inv (s : str) (l : list str) : in_strs s l = true -> In s l.
Proof.
  unfold in_strs. intros H. apply existsb_exists in H as [x [Hx E]].
  apply str_eqb_eq in E. now subst x.
Qed.

Lemma upper_lower_char (c : ascii) : upper_char (lower_char c) = upper_char c.
Proof. destruct c as [[] [] [] [] [] [] [] []]; reflexivity. Qed.

Lemma upper_lower (s : str) : upper (lower s) = upper s.
Proof.
  unfold upper, lower. rewrite map_map. apply map_ext. exact upper_lower_char.
Qed.

(** A key accepted by the method test is upper-cased to a method name. *)
Lemma http_method_upper (method : str) :
  in_strs (lower method) http_methods = true ->
  in_strs (upper method) http_method_names = true.
Proof.
  intros H. apply in_strs_inv in H. rewrite <- upper_lower.
  cbn [http_methods In] in H.
  repeat (destruct H as [<-|H]; [reflexivity|]). destruct H.
Qed.

(** X5.  Every extracted endpoint carries one of the seven method names,
    in upper case, whatever the case of the key in the spec; other keys of
    a path item give no endpoint. *)
Theorem parse_spec_methods :
  forall (openapi_spec : value) (key : option str) (self' : OpenAPIToK6),
    parse_spec (init openapi_spec key) = Ok self' ->
    Forall (fun ep => in_strs (ep_method ep) http_method_names = true)
           (endpoints self').
Proof.
  intros openapi_spec key self' H.
  eapply Forall_impl; [|exact (parse_spec_origin _ _ H)].
  intros ep (_ & item & method & _ & _ & Hm & Hu & _).
  rewrite Hu. now apply http_method_upper.
Qed.

Lemma parse_spec_methods_witness :
  Forall (fun ep => in_strs (ep_method ep) http_method_names = true)
         (endpoints_of (parse_spec (init Samples.mixed_case_spec None)))
  /\ map ep_method (endpoints_of (parse_spec (init Samples.mixed_case_spec None)))
     = ["GET" : str; "DELETE" : str].
Proof.
  split; [|reflexivity].
  destruct (parse_spec (init Samples.mixed_case_spec None)) as [self'|e] eqn:E;
    [|constructor].
  exact (parse_spec_methods _ _ E).
Defined.





Lemma parse_operations_total (base_url : value) (path : str)
    (ops : list (str * value)) :
  match parse_operations base_url path ops with
  | Ok _ => wf_path_item (VDict ops) = true
  | Raise e => e = AttributeError /\ wf_path_item (VDict ops) = false
  end.
Proof.
  cbn [wf_path_item].
  induction ops as [|[method operation] ops IH];
    cbn [parse_operations forallb fst snd]; [reflexivity|].
  destruct (in_strs (lower method) http_methods); cbn [implb].
  - destruct operation; cbn [py_get bind is_dict andb]; try (now split).
    destruct (parse_operations base_url path ops); cbn [bind]; exact IH.
  - exact IH.
Qed.

(** X7.  The walk over the paths returns exactly when every path item
    outside [/admin] is a mapping whose entries under a method name are
    mappings; otherwise it raises [AttributeError], and nothing else.  An
    item under an [/admin] path is never looked at. *)
Theorem parse_paths_total :
  forall (base_url : value) (paths : list (str * value)),
    match parse_paths base_url paths with
    | Ok _ => wf_paths paths = true
    | Raise e => e = AttributeError /\ wf_paths paths = false
    end.
Proof.
  intros base_url paths. unfold wf_paths.
  induction paths as [|[path item] paths IH];
    cbn [parse_paths forallb fst snd]; [reflexivity|].
  destruct (contains "/admin" path); cbn [orb andb]; [exact IH|].
  destruct item as [| | | | |ops]; cbn [py_items bind wf_path_item andb];
    try (now split).
  pose proof (parse_operations_total base_url path ops) as Ho.
  cbn [wf_path_item] in Ho.
  destruct (parse_operations base_url path ops); cbn [bind].
  - rewrite Ho. cbn [andb].
    destruct (parse_paths base_url paths); cbn [bind]; exact IH.
  - destruct Ho as [-> ->]. now split.
Qed.

Lemma parse_operations_ok (base_url : value) (path : str) (ops : list (str * value)) :
  is_ok (parse_operations base_url path ops) = wf_path_item (VDict ops).
Proof.
  pose proof (parse_operations_total base_url path ops) as H.
  destruct (parse_operations base_url path ops); cbn [is_ok].
  - now rewrite H.
  - now destruct H as [_ ->].
Qed.

Lemma parse_paths_ok (base_url : value) (paths : list (str * value)) :
  is_ok (parse_paths base_url paths) = wf_paths paths.
Proof.
  unfold wf_paths.
  induction paths as [|[path item] paths IH];
    cbn [parse_paths forallb fst snd]; [reflexivity|].
  destruct (contains "/admin" path); cbn [orb]; [exact IH|].
  destruct item as [| | | | |ops]; cbn [py_items bind]; try reflexivity.
  rewrite <- parse_operations_ok with (base_url := base_url) (path := path).
  destruct (parse_operations base_url path ops); cbn [bind is_ok andb];
    [|reflexivity].
  rewrite <- IH. now destruct (parse_paths base_url paths).
Qed.

Lemma slug_safe_lower (c : ascii) : slug_safe (lower_char c) = true -> slug_safe c = true.
Proof. destruct c as [[] [] [] [] [] [] [] []]; intros H; solve [reflexivity | discriminate H]. Qed.

Lemma http_method_safe (method : str) :
  in_strs (lower method) http_methods = true -> forallb slug_safe method = true.
Proof.
  intros H. apply in_strs_inv in H.
  assert (Hs : forallb slug_safe (lower method) = true).
  { cbn [http_methods In] in H.
    repeat (destruct H as [<-|H]; [reflexivity|]). destruct H. }
  apply forallb_forall. intros c Hc. apply slug_safe_lower.
  rewrite forallb_forall in Hs. apply Hs. unfold lower. now apply in_map.
Qed.

Lemma path_slug_safe (path : str) : forallb slug_safe (path_slug path) = true.
Proof.
  unfold path_slug. induction path as [|c path IH]; [reflexivity|].
  cbn [flat_map]. rewrite forallb_app, IH, andb_true_r.
  unfold slug_char.
  destruct (Ascii.eqb c "/") eqn:E1; [reflexivity|].
  destruct (Ascii.eqb c "{") eqn:E2; [reflexivity|].
  destruct (Ascii.eqb c "}") eqn:E3; [reflexivity|].
  cbn [orb forallb]. unfold slug_safe. now rewrite E1, E2, E3.
Qed.

(** X8.  The identifier derived for an endpoint without [operationId] is
    text that holds no slash and no brace. *)
Theorem default_operation_id_safe :
  forall (openapi_spec : value) (key : option str) (self' : OpenAPIToK6),
    parse_spec (init openapi_spec key) = Ok self' ->
    Forall (fun ep =>
              lookup "operationId" (entries (ep_operation ep)) = None ->
              exists s, ep_operation_id ep = VStr s /\ forallb slug_safe s = true)
           (endpoints self').
Proof.
  intros openapi_spec key self' H.
  eapply Forall_impl; [|exact (parse_spec_origin _ _ H)].
  intros ep (_ & item & method & _ & _ & Hm & _ & Hid) Hno.
  exists (default_operation_id method (ep_path ep)). split; [now apply Hid|].
  rewrite default_operation_id_slug, !forallb_app.
  rewrite (http_method_safe _ Hm), path_slug_safe. reflexivity.
Qed.

Lemma default_operation_id_safe_witness :
  Forall (fun ep =>
            lookup "operationId" (entries (ep_operation ep)) = None ->
            exists s, ep_operation_id ep = VStr s /\ forallb slug_safe s = true)
         (endpoints_of (parse_spec (init Samples.users_spec None)))
  /\ List.length (endpoints_of (parse_spec (init Samples.users_spec None))) = 2.
Proof.
  split; [|reflexivity].
  destruct (parse_spec (init Samples.users_spec None)) as [self'|e] eqn:E;
    [|constructor].
  exact (default_operation_id_safe _ _ E).
Defined.

(* ================================================================= *)
(** ** Further properties: request bodies *)

Lemma body_part_default (prop_name : str) (d : list (str * value)) (v : value) :
  declared_default (VDict d) = Some v ->
  body_part prop_name (VDict d) = Ok (Some (default_line prop_name v)).
Proof.
  unfold declared_default, body_part, default_line. cbn [entries py_get bind].
  destruct (lookup "default" d) as [[]|]; try discriminate;
    intros E; injection E as <-; reflexivity.
Qed.

(** X9.  When every property of a schema is a mapping that declares a
    default other than null, the body has one line per property, in
    declaration order: the default as Python prints it, between single
    quotes when it is text, whatever the declared type. *)
Theorem body_parts_defaults :
  forall props : list (str * value),
    Forall (fun e => is_dict (snd e) = true /\ declared_default (snd e) <> None)
           props ->
    exists lines,
      body_parts props = Ok lines
      /\ Forall2 (fun e line =>
                    exists v, declared_default (snd e) = Some v
                              /\ line = default_line (fst e) v)
                 props lines.
Proof.
  induction 1 as [|[name schema] props [Hd Hv] _ (lines & E & Hl)].
  - exists []. split; [reflexivity|constructor].
  - cbn [fst snd] in *. destruct schema as [| | | | |d]; try discriminate Hd.
    destruct (declared_default (VDict d)) as [v|] eqn:Ev; [|contradiction].
    exists (default_line name v :: lines). split.
    + cbn [body_parts]. rewrite (body_part_default _ _ Ev). cbn [bind].
      now rewrite E.
    + constructor; [|exact Hl]. exists v. now split.
Qed.

Lemma body_parts_defaults_witness :
  exists lines,
    body_parts (entries (field Samples.defaults_schema "properties" (VDict [])))
    = Ok lines
    /\ lines = [ "        kind: 'a'b'" : str; "        limit: 10" : str;
                 "        tags: ['x', 1]" : str ].
Proof.
  destruct (body_parts_defaults
              (props := entries (field Samples.defaults_schema "properties" (VDict []))))
    as (lines & E & _).
  - repeat constructor; discriminate.
  - exists lines. split; [exact E|].
    assert (Hc : body_parts (entries (field Samples.defaults_schema "properties"
                                            (VDict [])))
                 = Ok [ "        kind: 'a'b'" : str; "        limit: 10" : str;
                        "        tags: ['x', 1]" : str ]) by reflexivity.
    rewrite Hc in E. now apply Ok_inj in E.
Defined.

(** X10.  A default declared as null counts as no default, and in the
    integer, number and boolean branches it is then printed: the line of
    the property reads [None]. *)
Theorem body_part_null_default :
  forall (prop_name t : str) (d : list (str * value)),
    lookup "default" d = Some VNone ->
    lookup "type" d = Some (VStr t) ->
    in_strs t ["integer" : str; "number" : str; "boolean" : str] = true ->
    body_part prop_name (VDict d) = Ok (Some ("        " ++ prop_name ++ ": None")).
Proof.
  intros prop_name t d Hd Ht Hin. apply in_strs_inv in Hin.
  unfold body_part. cbn [py_get bind]. rewrite Hd, Ht.
  cbn [In] in Hin. destruct Hin as [<-|[<-|[<-|[]]]]; reflexivity.
Qed.

Lemma body_part_null_default_witness :
  body_part "count" (VDict (entries (Samples.dict [("type", VStr "integer");
                                                   ("default", VNone)])))
  = Ok (Some ("        count: None" : str)).
Proof.
  exact (@body_part_null_default "count" "integer"
           (entries (Samples.dict [("type", VStr "integer"); ("default", VNone)]))
           eq_refl eq_refl eq_refl).
Defined.

Lemma body_part_dict_ok (prop_name : str) (d : list (str * value)) :
  is_ok (body_part prop_name (VDict d)) = true.
Proof.
  unfold body_part. cbn [py_get bind].
  destruct (lookup "default" d) as [[]|]; try reflexivity;
    repeat match goal with
           | |- context [if ?b then _ else _] => destruct b
           end; reflexivity.
Qed.

Lemma body_parts_total (props : list (str * value)) :
  match body_parts props with
  | Ok _ => forallb (fun e => is_dict (snd e)) props = true
  | Raise e => e = AttributeError
               /\ forallb (fun e => is_dict (snd e)) props = false
  end.
Proof.
  induction props as [|[name schema] props IH]; cbn [body_parts forallb snd];
    [reflexivity|].
  destruct schema as [| | | | |d]; try (now split).
  pose proof (body_part_dict_ok name d) as Hp.
  destruct (body_part name (VDict d)) as [part|]; [|discriminate Hp].
  cbn [bind is_dict andb].
  destruct (body_parts props) as [more|]; cbn [bind]; [|exact IH].
  now destruct part.
Qed.

(** X11.  Body synthesis returns exactly when the schema is a mapping, its
    [properties] entry (when there is one) is a mapping, and every property
    schema is a mapping; otherwise it raises [AttributeError], and nothing
    else. *)
Theorem generate_request_body_total :
  forall (schema : value) (var_name : str),
    match generate_request_body schema var_name with
    | Ok _ => wf_body_schema schema = true
    | Raise e => e = AttributeError /\ wf_body_schema schema = false
    end.
Proof.
  intros schema var_name. unfold generate_request_body, wf_body_schema.
  destruct schema as [| | | | |d]; try (now split).
  cbn [py_get bind is_dict andb]. unfold field. cbn [entries].
  destruct (match lookup "properties" d with Some x => x | None => VDict [] end)
    as [| | | | |props]; try (now split).
  cbn [py_items bind is_dict entries andb].
  pose proof (body_parts_total props) as Hp.
  destruct (body_parts props) as [[|line lines]|]; cbn [bind]; exact Hp.
Qed.

(** X12.  When the request-body schema of a POST, PUT or PATCH is a
    non-empty value for which body synthesis writes no line, the endpoint
    gets no body declaration, and its request line still hands
    [JSON.stringify(body<i>)] to the call. *)
Theorem request_body_undeclared :
  forall (i : nat) (method : str) (operation schema : value),
    in_strs method ["POST" : str; "PUT" : str; "PATCH" : str] = true ->
    request_body_schema operation = Ok schema ->
    truthy schema = true ->
    generate_request_body schema ("body" ++ str_of_nat i) = Ok [] ->
    request_body i method operation = Ok ("body" ++ str_of_nat i, [])
    /\ infix_of ("JSON.stringify(body" ++ str_of_nat i ++ ")")
                (request_code i method ("body" ++ str_of_nat i)).
Proof.
  intros i method operation schema Hm Hs Ht Hg. split.
  - unfold request_body. rewrite Hm, Hs. cbn [bind]. rewrite Ht, Hg. reflexivity.
  - unfold request_code, infix_of.
    change (list_ascii_of_string "body") with
      ["b"%char; "o"%char; "d"%char; "y"%char].
    cbn [app].
    exists (nl ++ "    const res" ++ str_of_nat i ++ " = http." ++ lower method
               ++ "(url" ++ str_of_nat i ++ ", "),
           (", { headers: headers" ++ str_of_nat i ++ " });").
    rewrite <- !app_assoc. reflexivity.
Qed.

Lemma request_body_undeclared_witness :
  request_body 0 "POST" Samples.bare_body_operation = Ok ("body" ++ str_of_nat 0, [])
  /\ infix_of ("JSON.stringify(body" ++ str_of_nat 0 ++ ")")
              (request_code 0 "POST" ("body" ++ str_of_nat 0)).
Proof.
  exact (request_body_undeclared 0 "POST" Samples.bare_body_operation
           (schema := Samples.dict [("type", VStr "object")])
           eq_refl eq_refl eq_refl eq_refl).
Defined.

Lemma first_json_schema_skip (pre rest : list (str * value)) :
  Forall (fun e => contains "json" (lower (fst e)) = false) pre ->
  first_json_schema (pre ++ rest) = first_json_schema rest.
Proof.
  induction 1 as [|[ct mt] pre Hc _ IH]; [reflexivity|].
  cbn [app first_json_schema]. cbn [fst] in Hc. now rewrite Hc.
Qed.

(** X13.  The body schema is the one under the content type
    [application/json] when that schema is a non-empty value.  When the
    content has no such key, it is the schema of the first content type
    whose name holds [json] in any case; content types before it are not
    looked at. *)
Theorem request_body_schema_choice :
  forall (d rb content : list (str * value)),
    lookup "requestBody" d = Some (VDict rb) ->
    lookup "content" rb = Some (VDict content) ->
    (forall aj, lookup "application/json" content = Some aj ->
                is_dict aj = true ->
                truthy (field aj "schema" (VDict [])) = true ->
                request_body_schema (VDict d) = Ok (field aj "schema" (VDict [])))
    /\ (forall pre ct mt post,
          lookup "application/json" content = None ->
          content = pre ++ (ct, mt) :: post ->
          Forall (fun e => contains "json" (lower (fst e)) = false) pre ->
          contains "json" (lower ct) = true ->
          is_dict mt = true ->
          request_body_schema (VDict d) = Ok (field mt "schema" (VDict []))).
Proof.
  intros d rb content Hrb Hc. split.
  - intros aj Haj Hd Ht. unfold request_body_schema. cbn [py_get bind].
    rewrite Hrb. cbn [py_get bind]. rewrite Hc. cbn [py_get bind]. rewrite Haj.
    rewrite py_get_field by exact Hd. cbn [bind]. now rewrite Ht.
  - intros pre ct mt post Hno Hsplit Hpre Hct Hd.
    unfold request_body_schema. cbn [py_get bind].
    rewrite Hrb. cbn [py_get bind]. rewrite Hc. cbn [py_get bind]. rewrite Hno.
    cbn [py_get lookup truthy negb py_items bind].
    rewrite Hsplit, first_json_schema_skip by exact Hpre.
    cbn [first_json_schema]. rewrite Hct.
    rewrite py_get_field by exact Hd. reflexivity.
Qed.

Lemma request_body_schema_choice_witness :
  request_body_schema Samples.vendor_body_operation = Ok Samples.name_active_schema.
Proof.
  refine (proj2 (@request_body_schema_choice
                   (entries Samples.vendor_body_operation)
                   (entries (field Samples.vendor_body_operation "requestBody" VNone))
                   [("multipart/form-data" : str, VNone);
                    ("application/vnd.api+JSON" : str,
                     Samples.dict [("schema", Samples.name_active_schema)])]
                   eq_refl eq_refl)
                [("multipart/form-data" : str, VNone)]
                ("application/vnd.api+JSON" : str)
                (Samples.dict [("schema", Samples.name_active_schema)])
                [] eq_refl eq_refl _ eq_refl eq_refl).
  constructor; [reflexivity|constructor].
Defined.

(* ================================================================= *)
(** ** Further properties: tracking code *)



Lemma first_id_like_shape (props : list (str * value)) (e : str) :
  first_id_like props = Some e -> exists n, e = "json." ++ n.
Proof.
  induction props as [|[n v] props IH]; cbn [first_id_like]; [discriminate|].
  destruct (contains "id" (lower n)); [|exact IH].
  intros E. injection E as <-. now exists n.
Qed.

Lemma extractor_of_media_shape (media_type : value) (param_name e : str) :
  extractor_of_media media_type param_name = Ok (Some e) ->
  exists n, e = "json." ++ n.
Proof.
  unfold extractor_of_media.
  destruct (py_get media_type "schema" (VDict [])) as [schema|]; cbn [bind];
    [|discriminate].
  destruct (py_get schema "properties" (VDict [])) as [props|]; cbn [bind];
    [|discriminate].
  destruct (py_in param_name props) as [[]|]; cbn [bind]; try discriminate.
  { intros E. apply Ok_inj in E. injection E as <-. now exists param_name. }
  destruct (py_in "id" props) as [[]|]; cbn [bind]; try discriminate.
  { intros E. apply Ok_inj in E. injection E as <-. now exists ("id" : str). }
  destruct (py_get schema "type" VNone) as [ty|]; cbn [bind]; [|discriminate].
  destruct (is_str "object" ty); [|discriminate].
  destruct (py_items props) as [items|]; cbn [bind]; [|discriminate].
  intros E. apply Ok_inj in E. exact (first_id_like_shape _ E).
Qed.

Lemma extractor_of_content_shape (content : list (str * value)) (param_name e : str) :
  extractor_of_content content param_name = Ok (Some e) ->
  exists n, e = "json." ++ n.
Proof.
  induction content as [|[ct mt] content IH]; cbn [extractor_of_content];
    [discriminate|].
  destruct (contains "json" (lower ct)); [|exact IH].
  destruct (extractor_of_media mt param_name) as [[e'|]|] eqn:Em; cbn [bind];
    try discriminate; [|exact IH].
  intros E. apply Ok_inj in E. injection E as <-.
  exact (extractor_of_media_shape _ _ Em).
Qed.

Lemma extractor_of_statuses_shape (responses : value) (codes : list str)
    (param_name e : str) :
  extractor_of_statuses responses codes param_name = Ok (Some e) ->
  exists n, e = "json." ++ n.
Proof.
  induction codes as [|code codes IH]; cbn [extractor_of_statuses];
    [discriminate|].
  destruct (py_get responses code (VDict [])) as [response|]; cbn [bind];
    [|discriminate].
  destruct (py_get response "content" (VDict [])) as [content|]; cbn [bind];
    [|discriminate].
  destruct (py_items content) as [entries|]; cbn [bind]; [|discriminate].
  destruct (extractor_of_content entries param_name) as [[e'|]|] eqn:Ec;
    cbn [bind]; try discriminate; [|exact IH].
  intros E. apply Ok_inj in E. injection E as <-.
  exact (extractor_of_content_shape _ _ Ec).
Qed.

Lemma split_char_head (s : str) : nth 0 (split_char "." s) [] = before_dot s.
Proof.
  induction s as [|c s IH]; [reflexivity|].
  cbn [split_char before_dot]. destruct (Ascii.eqb c "."); [reflexivity|].
  destruct (split_char "." s) as [|p ps]; cbn [nth] in *; now rewrite <- IH.
Qed.

Lemma extractor_field_json (n : str) : extractor_field ("json." ++ n) = before_dot n.
Proof.
  unfold extractor_field.
  change (contains "." ("json." ++ n)) with true. cbv iota.
  change (nth 1 (split_char "." ("json." ++ n)) [])
    with (nth 0 (split_char "." n) []).
  apply split_char_head.
Qed.

Lemma before_dot_no_dot (n : str) :
  forallb (fun c => negb (Ascii.eqb c ".")) n = true -> before_dot n = n.
Proof.
  induction n as [|c n IH]; [reflexivity|]. cbn [forallb before_dot].
  intros H. apply andb_true_iff in H as [Hc Hn].
  destruct (Ascii.eqb c "."); [discriminate Hc|]. now rewrite IH.
Qed.

(** X15.  A response field the heuristic returns is always [json.] followed
    by a name, and the capture block reads the part of that name before its
    first dot: the whole name when it has no dot, a shorter one when it has. *)
Theorem extractor_field_of_result :
  forall (operation : value) (param_name e : str),
    find_response_value_extractor operation param_name = Ok (Some e) ->
    exists n,
      e = "json." ++ n
      /\ extractor_field e = before_dot n
      /\ (forallb (fun c => negb (Ascii.eqb c ".")) n = true ->
          extractor_field e = n).
Proof.
  intros operation param_name e. unfold find_response_value_extractor.
  destruct (py_get operation "responses" (VDict [])) as [responses|]; cbn [bind];
    [|discriminate].
  intros H. destruct (extractor_of_statuses_shape _ _ _ H) as [n ->].
  exists n. split; [reflexivity|]. rewrite extractor_field_json.
  split; [reflexivity|]. apply before_dot_no_dot.
Qed.

Lemma extractor_field_of_result_witness :
  find_response_value_extractor Samples.dotted_operation "userId"
  = Ok (Some ("json.user.id" : str))
  /\ extractor_field "json.user.id" = ("user" : str).
Proof.
  assert (H : find_response_value_extractor Samples.dotted_operation "userId"
              = Ok (Some ("json.user.id" : str))) by reflexivity.
  split; [exact H|].
  destruct (extractor_field_of_result _ _ H) as (n & En & Ef & _).
  rewrite Ef. apply (app_inv_head ("json." : str)) in En. now subst n.
Defined.

Lemma response_extractor_shape (operation : value) (param_name e : str) :
  wf_operation operation = true ->
  response_extractor operation param_name = Some e ->
  exists c e', e = c :: e'.
Proof.
  intros Hwf He.
  pose proof (find_response_value_extractor_wf param_name _ Hwf) as H.
  rewrite He in H. unfold find_response_value_extractor in H.
  destruct (py_get operation "responses" (VDict [])) as [responses|];
    cbn [bind] in H; [|discriminate H].
  destruct (extractor_of_statuses_shape _ _ _ H) as [n ->].
  now exists "j"%char, ("son." ++ n).
Qed.

(** X16.  On a well-formed operation the capture blocks of the path
    parameters are, in path order, one block for each parameter whose name
    holds [id] or [franchise] in any case and for which the heuristic finds
    a response field; a parameter that occurs twice is captured twice. *)
Theorem param_trackers_blocks :
  forall (operation : value) (res_var : str) (params : list str),
    wf_operation operation = true ->
    param_trackers operation res_var params
    = Ok (tracked_blocks operation res_var params).
Proof.
  intros operation res_var params Hwf.
  induction params as [|param params IH]; [reflexivity|].
  cbn [param_trackers]. unfold tracked_blocks in *. cbn [flat_map].
  destruct (contains "id" (lower param) || contains "franchise" (lower param));
    [|exact IH].
  rewrite find_response_value_extractor_wf by exact Hwf. cbn [bind].
  rewrite IH. cbn [bind].
  destruct (response_extractor operation param) as [e|] eqn:Ee; [|reflexivity].
  destruct (response_extractor_shape _ _ Hwf Ee) as (c & e' & ->). reflexivity.
Qed.

Lemma param_trackers_blocks_witness :
  param_trackers Samples.created_operation "res1" ["itemId" : str; "name" : str; "itemId" : str]
  = Ok [param_tracker "res1" "itemId" "id"; param_tracker "res1" "itemId" "id"].
Proof.
  exact (param_trackers_blocks Samples.created_operation "res1"
           ["itemId" : str; "name" : str; "itemId" : str] eq_refl).
Defined.

(* ================================================================= *)
(** ** Further properties: the run and the script *)

(** X17.  Extraction from a fresh object returns exactly when the spec is
    a mapping, the server URL lookup returns, the [paths] entry (when there
    is one) is a mapping, and every path item outside [/admin] is a mapping
    whose entries under a method name are mappings. *)
Theorem parse_spec_total :
  forall (openapi_spec : value) (key : option str),
    is_ok (parse_spec (init openapi_spec key))
    = is_dict openapi_spec
      && is_ok (server_url openapi_spec)
      && is_dict (field openapi_spec "paths" (VDict []))
      && wf_paths (entries (field openapi_spec "paths" (VDict []))).
Proof.
  intros openapi_spec key. unfold parse_spec, init.
  cbn [spec auth_key tracked_values endpoints app].
  destruct openapi_spec as [| | | | |d]; try reflexivity.
  cbn [py_get bind is_dict andb]. unfold field. cbn [entries].
  destruct (server_url (VDict d)) as [url|]; cbn [bind is_ok andb]; [|reflexivity].
  destruct (match lookup "paths" d with Some x => x | None => VDict [] end)
    as [| | | | |items]; try reflexivity.
  cbn [py_items bind is_dict entries andb].
  rewrite <- (parse_paths_ok url items).
  now destruct (parse_paths url items).
Qed.

(** X18.  An endpoint with method GET, DELETE, HEAD or OPTIONS whose
    operation is a mapping always gets its block, whatever the operation
    holds: comment, URL and headers, no body declaration, a request with a
    [null] payload, the check, and no tracking code. *)
Theorem endpoint_block_read_only :
  forall (i : nat) (ep : Endpoint),
    is_dict (ep_operation ep) = true ->
    in_strs (ep_method ep) read_only_methods = true ->
    endpoint_block i ep
    = Ok ([ "" : str;
            "    // " ++ py_str (ep_operation_id ep) ++ ": " ++ ep_method ep
                      ++ " " ++ ep_path ep;
            "    const url" ++ str_of_nat i ++ " = baseUrl + `"
                            ++ replace_path_parameters (ep_path ep) ++ "`;" ]
          ++ headers_code i (ep_path ep)
          ++ [ [];
               nl ++ "    const res" ++ str_of_nat i ++ " = http."
                  ++ lower (ep_method ep) ++ "(url" ++ str_of_nat i
                  ++ ", null, { headers: headers" ++ str_of_nat i ++ " });";
               check_code i;
               [] ]).
Proof.
  intros i [path method op oid base] Hop Hm. cbn [ep_operation ep_method] in Hop, Hm.
  destruct op as [| | | | |d]; try discriminate Hop.
  apply in_strs_inv in Hm. cbn [read_only_methods In] in Hm.
  assert (Hb : request_body i method (VDict d) = Ok ([], [])).
  { destruct Hm as [<-|[<-|[<-|[<-|[]]]]]; reflexivity. }
  assert (Hu : in_strs (upper method) ["POST" : str; "PUT" : str] = false
               /\ str_eqb (upper method) "POST" = false).
  { destruct Hm as [<-|[<-|[<-|[<-|[]]]]]; split; reflexivity. }
  assert (Ht : tracker_code i (mkEndpoint path method (VDict d) oid base) = Ok []).
  { unfold tracker_code. cbn [ep_operation ep_method ep_path py_merge bind].
    unfold generate_value_tracker, operation_method. cbn [py_get].
    rewrite lookup_dict_set_same. cbn [bind].
    destruct Hu as [-> ->]. cbn [bind]. now rewrite andb_false_r. }
  unfold endpoint_block. cbn [ep_operation ep_method ep_path ep_operation_id].
  rewrite Hb, Ht. cbn [bind fst snd request_code]. reflexivity.
Qed.

Lemma endpoint_block_read_only_witness :
  is_ok (endpoint_block 2 Samples.odd_get_endpoint) = true
  /\ request_body_schema (ep_operation Samples.odd_get_endpoint)
     = Raise AttributeError.
Proof.
  split; [|reflexivity].
  now rewrite (endpoint_block_read_only 2 Samples.odd_get_endpoint eq_refl eq_refl).
Defined.

Lemma str_of_nat_read (n : nat) : nat_of_str (str_of_nat n) = Some n.
Proof.
  unfold nat_of_str, str_of_nat. rewrite string_of_list_ascii_of_string.
  pose proof (DecimalNat.Unsigned.of_to n) as Hn.
  destruct (Nat.to_uint n) as [|d|d|d|d|d|d|d|d|d|d] eqn:E;
    [cbn in Hn |- *; now rewrite Hn | ..];
    (rewrite NilZero.usu by discriminate; cbn [option_map]; now rewrite Hn).
Qed.

(** X19.  The number written into the names [url<i>], [headers<i>],
    [body<i>], [res<i>] and [success<i>] reads back as the position of the
    endpoint, so the header declarations of two endpoints at different
    positions are different lines. *)
Theorem endpoint_numbering :
  (forall n : nat, nat_of_str (str_of_nat n) = Some n)
  /\ (forall (i j : nat) (p q : str),
         hd [] (headers_code i p) = hd [] (headers_code j q) -> i = j).
Proof.
  split; [exact str_of_nat_read|].
  intros i j p q H. unfold headers_code in H. cbn [app hd] in H.
  apply app_inv_head in H. apply app_inv_tail in H.
  pose proof (str_of_nat_read i) as Hi. rewrite H, str_of_nat_read in Hi.
  now injection Hi.
Qed.

Lemma endpoint_numbering_witness :
  nat_of_str (str_of_nat 120) = Some 120
  /\ hd [] (headers_code 7 "/a") = hd [] (headers_code 7 "/b")
  /\ 7 = 7.
Proof.
  split; [exact (proj1 endpoint_numbering 120)|].
  assert (H : hd [] (headers_code 7 "/a") = hd [] (headers_code 7 "/b"))
    by reflexivity.
  split; [exact H|]. exact (proj2 endpoint_numbering 7 7 _ _ H).
Defined.

Lemma join_cons (sep p : str) (rest : list str) :
  rest <> [] -> join sep (p :: rest) = p ++ sep ++ join sep rest.
Proof. destruct rest; [contradiction|reflexivity]. Qed.

(* ================================================================= *)
(** ** The functions of the embedding and the plain vocabulary *)

Lemma same_text_str_eqb (a b : str) : Plain.same_text a b = str_eqb a b.
Proof.
  unfold Plain.same_text. destruct (list_eq_dec ascii_dec a b) as [->|N]; symmetry.
  - apply str_eqb_refl.
  - now apply str_eqb_neq.
Qed.

Lemma same_text_sym (a b : str) : Plain.same_text a b = Plain.same_text b a.
Proof.
  unfold Plain.same_text.
  destruct (list_eq_dec ascii_dec a b), (list_eq_dec ascii_dec b a);
    congruence.
Qed.

Lemma same_text_true (a b : str) : Plain.same_text a b = true <-> a = b.
Proof. rewrite same_text_str_eqb. apply str_eqb_eq. Qed.

Lemma assoc_lookup (k : str) (d : list (str * value)) :
  Plain.assoc k d = lookup k d.
Proof.
  induction d as [|[k' v] d IH]; [reflexivity|].
  cbn [Plain.assoc lookup fst snd].
  now rewrite same_text_sym, same_text_str_eqb, IH.
Qed.

Lemma at_key_lookup (d : list (str * value)) (k : str) :
  Plain.at_key d k = match lookup k d with Some v => v | None => VDict [] end.
Proof. unfold Plain.at_key. now rewrite assoc_lookup. Qed.


Lemma to_small_lower (c : ascii) : Plain.to_small c = lower_char c.
Proof. destruct c as [[] [] [] [] [] [] [] []]; reflexivity. Qed.

Lemma to_capital_upper (c : ascii) : Plain.to_capital c = upper_char c.
Proof. destruct c as [[] [] [] [] [] [] [] []]; reflexivity. Qed.

Lemma name_char_word (c : ascii) : Plain.name_char c = is_word c.
Proof. destruct c as [[] [] [] [] [] [] [] []]; reflexivity. Qed.

Lemma small_lower (s : str) : Plain.small s = lower s.
Proof. unfold Plain.small, lower. apply map_ext. exact to_small_lower. Qed.

Lemma capital_upper (s : str) : Plain.capital s = upper s.
Proof. unfold Plain.capital, upper. apply map_ext. exact to_capital_upper. Qed.

Lemma prefix_of_firstn (p s : str) :
  prefix_of p s = Plain.same_text (firstn (List.length p) s) p.
Proof.
  rewrite same_text_str_eqb. revert s.
  induction p as [|x p IH]; intros [|y s]; cbn [prefix_of List.length firstn str_eqb];
    try reflexivity.
  now rewrite IH, Ascii.eqb_sym.
Qed.

Lemma holds_contains (sub s : str) : Plain.holds sub s = contains sub s.
Proof.
  induction s as [|c s IH]; cbn [Plain.holds contains];
    now rewrite <- prefix_of_firstn, ?IH.
Qed.

Lemma holds_infix (sub s : str) : Plain.holds sub s = true <-> infix_of sub s.
Proof.
  rewrite holds_contains. split; [apply contains_infix|].
  intros (pre & post & ->). induction pre as [|c pre IH]; cbn [app].
  - destruct (sub ++ post) eqn:E; cbn [contains]; rewrite <- E, prefix_of_app;
      reflexivity.
  - cbn [contains]. rewrite IH. apply orb_true_r.
Qed.

Lemma name_word (w : str) : Plain.name w <-> word_ne w.
Proof.
  unfold Plain.name, word_ne.
  assert (E : forallb Plain.name_char w = forallb is_word w).
  { induction w as [|c w IH]; [reflexivity|].
    cbn [forallb]. now rewrite name_char_word, IH. }
  now rewrite E.
Qed.

Lemma braced_placeholder (w : str) : Plain.braced w = placeholder w.
Proof. reflexivity. Qed.

Lemma lookup_text_path_lookup (w : str) : Plain.lookup_text w = path_lookup w.
Proof.
  unfold Plain.lookup_text, path_lookup. rewrite small_lower.
  rewrite <- !app_assoc. reflexivity.
Qed.

Lemma path_text_slug (path : str) : Plain.path_text path = path_slug path.
Proof.
  unfold Plain.path_text, path_slug. apply flat_map_ext. intros c.
  unfold slug_char.
  destruct (ascii_dec c "/") as [->|N1]; [reflexivity|].
  apply Ascii.eqb_neq in N1. rewrite N1.
  destruct (ascii_dec c "{") as [->|N2]; [reflexivity|].
  apply Ascii.eqb_neq in N2. rewrite N2.
  destruct (ascii_dec c "}") as [->|N3]; [reflexivity|].
  apply Ascii.eqb_neq in N3. now rewrite N3.
Qed.

(* ================================================================= *)
(** ** The response-field extractor against the plain search *)









(* ================================================================= *)
(** ** Extraction against the plain vocabulary *)

Lemma is_method_in_strs (k : str) :
  Plain.is_method k = in_strs (lower k) http_methods.
Proof.
  unfold Plain.is_method, in_strs, Plain.method_keys, http_methods.
  cbn [existsb]. now rewrite small_lower, !same_text_str_eqb.
Qed.

Lemma parse_operations_extract (base : value) (path : str)
    (ops : list (str * value)) (eps : list Endpoint) :
  parse_operations base path ops = Ok eps ->
  eps = Plain.operations_of base path (VDict ops).
Proof.
  unfold Plain.operations_of. cbn [Plain.members].
  revert eps. induction ops as [|[method operation] ops IH]; intros eps;
    cbn [parse_operations flat_map fst snd].
  - intros E. now apply Ok_inj in E.
  - rewrite is_method_in_strs.
    destruct (in_strs (lower method) http_methods); [|exact (IH eps)].
    destruct operation as [| | | | |d]; try discriminate. cbn [py_get bind].
    destruct (parse_operations base path ops) as [more|]; cbn [bind];
      [|discriminate].
    intros E. apply Ok_inj in E. subst eps. cbn [app]. f_equal.
    + unfold Plain.identifier. cbn [Plain.members].
      rewrite assoc_lookup, capital_upper, path_text_slug,
        <- default_operation_id_slug. reflexivity.
    + now apply IH.
Qed.

Lemma parse_paths_extract (base : value) (paths : list (str * value))
    (eps : list Endpoint) :
  parse_paths base paths = Ok eps -> eps = Plain.extract base paths.
Proof.
  unfold Plain.extract.
  revert eps. induction paths as [|[path item] paths IH]; intros eps;
    cbn [parse_paths flat_map fst snd].
  - intros E. now apply Ok_inj in E.
  - rewrite holds_contains.
    destruct (contains "/admin" path); [exact (IH eps)|].
    destruct item as [| | | | |ops]; try discriminate. cbn [py_items bind].
    destruct (parse_operations base path ops) as [here|] eqn:Eh; cbn [bind];
      [|discriminate].
    destruct (parse_paths base paths) as [more|]; cbn [bind]; [|discriminate].
    intros E. apply Ok_inj in E. subst eps. f_equal.
    + exact (parse_operations_extract _ _ _ Eh).
    + now apply IH.
Qed.

(** The endpoints of a fresh object after [parse_spec] are the endpoints of
    the paths of the spec. *)
Lemma parse_spec_extract (openapi_spec : value) (key : option str)
    (self' : OpenAPIToK6) :
  parse_spec (init openapi_spec key) = Ok self' ->
  exists base, endpoints self' = Plain.extract base (Plain.paths_of openapi_spec).
Proof.
  unfold parse_spec, init, Plain.paths_of.
  cbn [spec auth_key tracked_values endpoints app].
  destruct openapi_spec as [| | | | |d]; try discriminate. cbn [py_get bind].
  destruct (server_url (VDict d)) as [url|]; cbn [bind]; [|discriminate].
  cbn [Plain.members]. rewrite at_key_lookup.
  destruct (match lookup "paths" d with Some v => v | None => VDict [] end)
    as [| | | | |items]; try discriminate.
  cbn [py_items bind Plain.members].
  destruct (parse_paths url items) as [eps|] eqn:E; cbn [bind]; [|discriminate].
  intros H. apply Ok_inj in H. subst self'. cbn [endpoints].
  exists url. exact (parse_paths_extract _ _ E).
Qed.

(** What it is to be among the endpoints of some paths. *)
Lemma in_extract (base : value) (paths : list (str * value)) (ep : Endpoint) :
  In ep (Plain.extract base paths)
  <-> exists item method,
        In (ep_path ep, item) paths
        /\ Plain.holds "/admin" (ep_path ep) = false
        /\ In (method, ep_operation ep) (Plain.members item)
        /\ Plain.is_method method = true
        /\ ep = mkEndpoint (ep_path ep) (Plain.capital method) (ep_operation ep)
                  (Plain.identifier method (ep_path ep) (ep_operation ep)) base.
Proof.
  unfold Plain.extract, Plain.operations_of. rewrite in_flat_map. split.
  - intros ([path item] & Hin & H). cbn [fst snd] in H.
    destruct (Plain.holds "/admin" path) eqn:Ha; [destruct H|].
    apply in_flat_map in H as ([method op] & Ho & H). cbn [fst snd] in H.
    destruct (Plain.is_method method) eqn:Hm; [|destruct H].
    destruct H as [<-|[]]. cbn [ep_path ep_operation].
    exists item, method. repeat split; assumption.
  - intros (item & method & Hin & Ha & Ho & Hm & E).
    exists (ep_path ep, item). split; [exact Hin|]. cbn [fst snd]. rewrite Ha.
    apply in_flat_map. exists (method, ep_operation ep). split; [exact Ho|].
    cbn [fst snd]. rewrite Hm. left. now symmetry.
Qed.

(** C4 (as amended).  The endpoints extracted from a spec are, in
    path-then-method order, one for each entry of a path item outside
    [/admin] whose key is a method name in any letter case.  The identifier
    of an endpoint whose operation declares no [operationId] is the method
    key exactly as the spec writes it, an underscore, and the path with
    every [/] turned into an underscore and every brace removed; a second
    extraction of the same spec gives the same identifiers in the same
    order. *)
Theorem operation_id_fallback :
  forall (openapi_spec : value) (key : option str) (self' : OpenAPIToK6),
    parse_spec (init openapi_spec key) = Ok self' ->
    (exists base,
        endpoints self' = Plain.extract base (Plain.paths_of openapi_spec))
    /\ Forall (fun ep =>
                 exists item method,
                   In (ep_path ep, item) (Plain.paths_of openapi_spec)
                   /\ In (method, ep_operation ep) (Plain.members item)
                   /\ ep_method ep = Plain.capital method
                   /\ ep_operation_id ep
                      = Plain.identifier method (ep_path ep) (ep_operation ep)
                   /\ (Plain.assoc "operationId" (Plain.members (ep_operation ep))
                       = None ->
                       ep_operation_id ep
                       = VStr (method ++ "_" ++ Plain.path_text (ep_path ep))))
              (endpoints self')
    /\ forall (key2 : option str) (self2 : OpenAPIToK6),
         parse_spec (init openapi_spec key2) = Ok self2 ->
         map ep_operation_id (endpoints self2)
         = map ep_operation_id (endpoints self').
Proof.
  intros openapi_spec key self' H.
  destruct (parse_spec_extract _ _ H) as [base Hb].
  split; [now exists base|]. split.
  - apply Forall_forall. intros ep Hep. rewrite Hb in Hep.
    apply in_extract in Hep as (item & method & Hin & _ & Ho & _ & E).
    exists item, method. split; [exact Hin|]. split; [exact Ho|].
    pose proof (f_equal ep_method E) as Hm. cbn [ep_method] in Hm.
    pose proof (f_equal ep_operation_id E) as Hid. cbn [ep_operation_id] in Hid.
    split; [exact Hm|]. split; [exact Hid|].
    intros Hno. rewrite Hid. unfold Plain.identifier. now rewrite Hno.
  - intros key2 self2 H2.
    destruct (parse_spec_init _ _ H) as (_ & _ & _ & E1).
    destruct (parse_spec_init _ _ H2) as (_ & _ & _ & E2).
    rewrite E1 in E2. injection E2 as E2. now rewrite E2.
Qed.

Lemma operation_id_fallback_witness :
  map (fun ep => (ep_method ep, ep_operation_id ep))
      (endpoints_of (parse_spec (init Samples.cased_spec None)))
  = [("GET" : str, VStr "Get__items_itemId"); ("PUT" : str, VStr "replaceItem")]
  /\ exists base,
       endpoints_of (parse_spec (init Samples.cased_spec None))
       = Plain.extract base (Plain.paths_of Samples.cased_spec).
Proof.
  split; [reflexivity|].
  destruct (parse_spec (init Samples.cased_spec None)) as [self'|e] eqn:E;
    [|discriminate E].
  exact (proj1 (operation_id_fallback _ _ E)).
Defined.

(* ================================================================= *)
(** ** The header block against the plain vocabulary *)

Lemma headers_code_text (i : nat) (path : str) :
  contains "/admin" path = false ->
  join nl (headers_code i path) = Plain.header_block (str_of_nat i).
Proof.
  intros H. rewrite headers_code_auth by exact H.
  unfold Plain.header_block, auth_header_line. cbn [join].
  rewrite <- !app_assoc. reflexivity.
Qed.

Lemma authorization_line_text : auth_header_line = Plain.authorization_line.
Proof. reflexivity. Qed.

(** The declaration of the run-time key is a line of every script. *)
Lemma script_parts_auth_key (u : str) (blocks : list str) :
  infix_of Plain.auth_key_line (join nl (preamble u ++ blocks ++ trailer)).
Proof.
  replace (preamble u ++ blocks ++ trailer)
    with (firstn 24 (preamble u) ++ [Plain.auth_key_line]
            ++ ([] :: blocks ++ trailer))
    by reflexivity.
  apply (infix_join nl (firstn 24 (preamble u)) (b := [Plain.auth_key_line])).
  discriminate.
Qed.

(** C5.  After extraction from a fresh object no endpoint has a path that
    contains [/admin], so the script has no block, and no Authorization
    header construction, for such a path, wherever in the path the text
    stands.  Every entry under a method name of a path item outside
    [/admin] gives an endpoint, the header declaration of every endpoint
    holds the line that builds the Authorization header under the test of
    the run-time key, and that declaration, like the declaration of the
    key from the environment, is part of the generated script.  The guard
    of the assembler itself leaves the line out for a path that contains
    [/admin]. *)
Theorem admin_paths_excluded :
  forall (openapi_spec : value) (key : option str) (self' : OpenAPIToK6),
    parse_spec (init openapi_spec key) = Ok self' ->
    Forall (fun ep => contains "/admin" (ep_path ep) = false) (endpoints self')
    /\ (forall path, contains "/admin" path = true ->
                     ~ In path (map ep_path (endpoints self')))
    /\ (forall i ep, nth_error (endpoints self') i = Some ep ->
                     In auth_header_line (headers_code i (ep_path ep)))
    /\ (forall script i ep,
          generate_k6_script self' = Ok script ->
          nth_error (endpoints self') i = Some ep ->
          infix_of (join nl (headers_code i (ep_path ep))) script)
    /\ (forall i path, contains "/admin" path = true ->
                       ~ In auth_header_line (headers_code i path))
    /\ (forall path, infix_of "/admin" path ->
                     ~ In path (map ep_path (endpoints self')))
    /\ (forall path item method operation,
          In (path, item) (Plain.paths_of openapi_spec) ->
          ~ infix_of "/admin" path ->
          In (method, operation) (Plain.members item) ->
          Plain.is_method method = true ->
          exists i ep,
            nth_error (endpoints self') i = Some ep
            /\ ep_path ep = path
            /\ ep_method ep = Plain.capital method
            /\ ep_operation ep = operation)
    /\ (forall script,
          generate_k6_script self' = Ok script ->
          infix_of Plain.auth_key_line script
          /\ forall i ep,
               nth_error (endpoints self') i = Some ep ->
               exists digits,
                 nat_of_str digits = Some i
                 /\ infix_of (Plain.header_block digits) script
                 /\ infix_of Plain.authorization_line (Plain.header_block digits))
    /\ (forall i path, infix_of "/admin" path ->
                       ~ In Plain.authorization_line (headers_code i path)).
Proof.
  intros openapi_spec key self' H.
  assert (Hall : Forall (fun ep => contains "/admin" (ep_path ep) = false)
                        (endpoints self')).
  { eapply Forall_impl; [|exact (parse_spec_origin _ _ H)].
    intros ep [Ha _]. exact Ha. }
  assert (Hno : forall path, contains "/admin" path = true ->
                             ~ In path (map ep_path (endpoints self'))).
  { intros path Hp Hin. apply in_map_iff in Hin as [ep [<- Hep]].
    rewrite Forall_forall in Hall. rewrite (Hall ep Hep) in Hp. discriminate. }
  assert (Hblock : forall script i ep,
             generate_k6_script self' = Ok script ->
             nth_error (endpoints self') i = Some ep ->
             infix_of (join nl (headers_code i (ep_path ep))) script).
  { intros script i ep Hg Hn. unfold generate_k6_script, script_parts in Hg.
    destruct (server_url (spec self')) as [url|]; cbn [bind] in Hg; [|discriminate].
    destruct url as [| | |u| |]; try discriminate.
    destruct (endpoint_blocks 0 (endpoints self')) as [blocks|] eqn:Eb;
      cbn [bind] in Hg; [|discriminate].
    apply Ok_inj in Hg. subst script.
    destruct (endpoint_blocks_headers _ _ _ Eb Hn) as (before & after & ->).
    cbn [Nat.add].
    replace (preamble u ++ (before ++ headers_code i (ep_path ep) ++ after) ++ trailer)
      with ((preamble u ++ before) ++ headers_code i (ep_path ep) ++ (after ++ trailer))
      by now rewrite <- !app_assoc.
    apply infix_join. apply headers_code_not_nil. }
  split; [exact Hall|]. split; [exact Hno|]. split; [|split; [exact Hblock|]].
  { intros i ep Hn. apply nth_error_In in Hn.
    rewrite Forall_forall in Hall.
    rewrite headers_code_auth by now apply Hall.
    right. right. now left. }
  split; [intros i path; apply headers_code_admin|].
  split.
  { intros path Hp. apply Hno. rewrite <- holds_contains. now apply holds_infix. }
  split.
  { intros path item method operation Hin Ha Ho Hm.
    destruct (parse_spec_extract _ _ H) as [base Hb].
    assert (Hep : In (mkEndpoint path (Plain.capital method) operation
                        (Plain.identifier method path operation) base)
                     (endpoints self')).
    { rewrite Hb. apply in_extract. cbn [ep_path ep_operation].
      exists item, method. split; [exact Hin|]. split.
      - destruct (Plain.holds "/admin" path) eqn:E; [|reflexivity].
        apply holds_infix in E. contradiction.
      - repeat split; assumption. }
    apply In_nth_error in Hep as [i Hi].
    eexists i, _. split; [exact Hi|]. repeat split. }
  split.
  { intros script Hg. split.
    - unfold generate_k6_script, script_parts in Hg.
      destruct (server_url (spec self')) as [url|]; cbn [bind] in Hg;
        [|discriminate].
      destruct url as [| | |u| |]; try discriminate.
      destruct (endpoint_blocks 0 (endpoints self')) as [blocks|];
        cbn [bind] in Hg; [|discriminate].
      apply Ok_inj in Hg. subst script. apply script_parts_auth_key.
    - intros i ep Hn. exists (str_of_nat i).
      split; [apply str_of_nat_read|].
      pose proof (Hblock script i ep Hg Hn) as Hb.
      rewrite headers_code_text in Hb.
      + split; [exact Hb|].
        exists ("    const headers" ++ str_of_nat i ++ " = {
        'Content-Type': 'application/json',
"), ("
    };" : str).
        unfold Plain.header_block, Plain.authorization_line.
        rewrite <- !app_assoc. reflexivity.
      + rewrite Forall_forall in Hall. apply Hall.
        now apply nth_error_In in Hn. }
  intros i path Hp. rewrite <- authorization_line_text.
  apply headers_code_admin. rewrite <- holds_contains. now apply holds_infix.
Qed.

Lemma admin_paths_excluded_witness :
  exists self' script,
    parse_spec (init Samples.franchise_spec None) = Ok self'
    /\ generate_k6_script self' = Ok script
    /\ map ep_path (endpoints self') = ["/franchises" : str]
    /\ ~ In ("/admin/users" : str) (map ep_path (endpoints self'))
    /\ infix_of Plain.auth_key_line script
    /\ exists digits,
         nat_of_str digits = Some 0
         /\ infix_of (Plain.header_block digits) script.
Proof.
  destruct (parse_spec (init Samples.franchise_spec None)) as [self'|e] eqn:E;
    [|discriminate E].
  assert (Es : self' = {| spec := Samples.franchise_spec; auth_key := None;
                          tracked_values := [];
                          endpoints := [Samples.franchise_endpoint] |})
    by (apply Ok_inj in E; now subst self').
  destruct (generate_k6_script self') as [script|e'] eqn:G;
    [|rewrite Es in G; discriminate G].
  exists self', script. split; [reflexivity|]. split; [exact G|].
  pose proof (admin_paths_excluded _ _ E)
    as (_ & Hno & _ & _ & _ & _ & _ & Hscript & _).
  destruct (Hscript script G) as [Hkey Hblocks].
  split; [now rewrite Es|].
  split; [apply Hno; reflexivity|]. split; [exact Hkey|].
  assert (Hn : nth_error (endpoints self') 0 = Some Samples.franchise_endpoint)
    by now rewrite Es.
  destruct (Hblocks 0 _ Hn) as (digits & Hd & Hb & _).
  now exists digits.
Defined.

(* ================================================================= *)
(** ** The franchise capture against the plain vocabulary *)

Lemma franchise_tracker_text (res_var : str) :
  franchise_tracker res_var = Plain.franchise_block res_var.
Proof.
  unfold franchise_tracker, Plain.franchise_block. cbn [join].
  rewrite <- !app_assoc. reflexivity.
Qed.

(** The tracker of an operation with method POST on a path that holds
    [franchise] in any letter case. *)
Lemma generate_value_tracker_post (path : str) (d : list (str * value))
    (m res_var text : str) :
  infix_of "franchise" (Plain.small path) ->
  Plain.assoc "method" d = Some (VStr m) ->
  Plain.capital m = ("POST" : str) ->
  generate_value_tracker path (VDict d) res_var = Ok text ->
  exists before,
    text = before ++ Plain.franchise_block res_var
    /\ (before = [] \/ exists b, before = b ++ [ascii_of_nat 10]).
Proof.
  intros Hp Hm Hc. unfold generate_value_tracker, operation_method.
  cbn [py_get]. rewrite <- assoc_lookup, Hm. cbn [bind].
  rewrite <- capital_upper, Hc.
  change (in_strs "POST" ["POST" : str; "PUT" : str]) with true.
  destruct (param_trackers _ res_var (extract_path_parameters path)) as [blocks|];
    cbn [bind]; [|discriminate].
  apply holds_infix in Hp. rewrite holds_contains, small_lower in Hp.
  rewrite Hp. change (str_eqb "POST" "POST") with true. cbn [andb].
  intros E. apply Ok_inj in E. subst text. rewrite franchise_tracker_text.
  destruct blocks as [|b blocks].
  - exists []. split; [reflexivity|now left].
  - exists (join nl (b :: blocks) ++ nl). split.
    + rewrite join_app by discriminate. cbn [join]. now rewrite <- app_assoc.
    + right. now exists (join nl (b :: blocks)).
Qed.

(** C2.  For every operation with method POST on a path that holds
    [franchise] in any letter case, the tracking text ends with a capture
    block of its own: under the test of status 201 or 200 it reads the JSON
    body of the response, takes its [id] field when there is one, else its
    [franchiseId] field, and stores the value in the shared registry under
    the key [franchiseId].  The same holds of the tracking text of every
    endpoint with method POST on such a path, read from the response
    variable of its number, and the tracker returns whenever the operation
    is well formed.  On the spec with GET /admin/users and POST /franchises
    (201 response declaring id) extraction keeps the POST alone, its
    tracking text is that block, and the script contains it. *)
Theorem franchise_post_capture :
  (forall (path : str) (d : list (str * value)) (m res_var text : str),
      infix_of "franchise" (Plain.small path) ->
      Plain.assoc "method" d = Some (VStr m) ->
      Plain.capital m = ("POST" : str) ->
      generate_value_tracker path (VDict d) res_var = Ok text ->
      exists before,
        text = before ++ Plain.franchise_block res_var
        /\ (before = [] \/ exists b, before = b ++ [ascii_of_nat 10]))
  /\ (forall (i : nat) (ep : Endpoint),
         infix_of "franchise" (Plain.small (ep_path ep)) ->
         ep_method ep = ("POST" : str) ->
         (forall text,
             tracker_code i ep = Ok text ->
             exists before digits,
               nat_of_str digits = Some i
               /\ text = before ++ Plain.franchise_block ("res" ++ digits))
         /\ (wf_operation (ep_operation ep) = true ->
             is_ok (tracker_code i ep) = true))
  /\ endpoints_of (parse_spec (init Samples.franchise_spec None))
     = [Samples.franchise_endpoint]
  /\ tracker_code 0 Samples.franchise_endpoint = Ok (Plain.franchise_block "res0")
  /\ exists script,
       script_of (generate (init Samples.franchise_spec None)) = Ok script
       /\ infix_of (Plain.franchise_block "res0") script.
Proof.
  split; [exact generate_value_tracker_post|]. split.
  - intros i ep Hp Hm. unfold tracker_code. rewrite Hm.
    destruct (ep_operation ep) as [| | | | |d]; cbn [py_merge bind].
    1-5: split; [discriminate|discriminate].
    split.
    + intros text H.
      destruct (generate_value_tracker_post (m := "POST") _ _ _ Hp
                  (eq_trans (assoc_lookup _ _) (lookup_dict_set_same _ _ _))
                  eq_refl H) as (before & -> & _).
      exists before, (str_of_nat i). split; [apply str_of_nat_read|reflexivity].
    + intros Hwf. rewrite <- (wf_operation_merge d (VStr "POST")) in Hwf.
      unfold generate_value_tracker, operation_method.
      cbn [py_get]. rewrite lookup_dict_set_same. cbn [bind].
      change (upper "POST") with ("POST" : str).
      change (in_strs "POST" ["POST" : str; "PUT" : str]) with true.
      pose proof (param_trackers_ok _ ("res" ++ str_of_nat i)
                    (extract_path_parameters (ep_path ep)) Hwf) as Hok.
      now destruct (param_trackers _ _ _).
  - split; [reflexivity|]. split; [reflexivity|].
    eexists. split; [reflexivity|].
    apply contains_infix. vm_compute. reflexivity.
Qed.

Lemma franchise_post_capture_witness :
  infix_of "franchise" (Plain.small (ep_path Samples.franchise_endpoint))
  /\ ep_method Samples.franchise_endpoint = ("POST" : str)
  /\ wf_operation (ep_operation Samples.franchise_endpoint) = true
  /\ is_ok (tracker_code 0 Samples.franchise_endpoint) = true
  /\ exists before digits,
       nat_of_str digits = Some 0
       /\ Plain.franchise_block "res0"
          = before ++ Plain.franchise_block ("res" ++ digits).
Proof.
  assert (Hp : infix_of "franchise" (Plain.small (ep_path Samples.franchise_endpoint)))
    by (exists (list_ascii_of_string "/"), (list_ascii_of_string "s"); reflexivity).
  split; [exact Hp|]. split; [reflexivity|]. split; [reflexivity|].
  destruct (proj1 (proj2 franchise_post_capture) 0 Samples.franchise_endpoint Hp eq_refl)
    as [Htext Hok].
  split; [apply Hok; reflexivity|].
  apply Htext. reflexivity.
Defined.

(* ================================================================= *)
(** ** The path resolver against the plain vocabulary *)

Lemma opens_placeholder_match (s : str) :
  Plain.opens_placeholder s <-> exists w, match_placeholder s = Some w.
Proof.
  split.
  - intros (w & rest & Hn & ->). exists w. rewrite braced_placeholder.
    apply match_placeholder_intro. now apply name_word.
  - intros [w H]. apply match_placeholder_inv in H as [Hw [r ->]].
    exists w, r. split; [now apply name_word|reflexivity].
Qed.

(** The pass of the resolver is the resolution of the path, and the only
    one. *)
Lemma resolved_pass (path : str) :
  Plain.resolved path (substitute_placeholders path_lookup path).
Proof.
  unfold substitute_placeholders.
  induction path as [|c s E IH|w r Hw IH] using placeholder_ind.
  - constructor.
  - rewrite subst_nomatch by exact E. constructor; [|exact IH].
    intros H. apply opens_placeholder_match in H as [w H]. congruence.
  - rewrite subst_match by exact Hw. cbv beta iota.
    rewrite <- lookup_text_path_lookup, <- braced_placeholder.
    constructor; [now apply name_word|exact IH].
Qed.

Lemma resolved_unique (path text : str) :
  Plain.resolved path text -> text = substitute_placeholders path_lookup path.
Proof.
  unfold substitute_placeholders.
  induction 1 as [|w r r' Hn _ IH|c r r' Hc _ IH].
  - reflexivity.
  - rewrite braced_placeholder, subst_match by now apply name_word.
    cbv beta iota. now rewrite lookup_text_path_lookup, IH.
  - rewrite subst_nomatch; [now rewrite IH|].
    destruct (match_placeholder (c :: r)) as [w|] eqn:E; [|reflexivity].
    exfalso. apply Hc. apply opens_placeholder_match. now exists w.
Qed.

(** C6 (as amended).  On a path of ASCII text the path resolver replaces
    every placeholder [{name}] whose name is a non-empty run of letters,
    digits and underscores, from left to right, with the lookup that tries
    the registry entry under the exact name, then the registry entry under
    the name in small letters, then the name itself as a text literal, and
    keeps every other character; the resolved text holds no such
    placeholder any more. *)
Theorem replace_path_parameters_resolves :
  forall path : str,
    Plain.ascii_text path = true ->
    Plain.resolved path (replace_path_parameters path)
    /\ (forall text, Plain.resolved path text ->
                     text = replace_path_parameters path)
    /\ (forall w, Plain.name w ->
                  ~ infix_of (Plain.braced w) (replace_path_parameters path)).
Proof.
  intros path _. rewrite replace_path_parameters_pass. split; [|split].
  - apply resolved_pass.
  - apply resolved_unique.
  - intros w Hn Hi. apply name_word in Hn.
    pose proof (findall_complete Hn Hi) as H.
    now rewrite findall_substituted in H.
Qed.

Lemma replace_path_parameters_resolves_witness :
  Plain.ascii_text "/shops/{shopId}/items/{shopId}" = true
  /\ Plain.resolved "/shops/{shopId}/items/{shopId}"
       (replace_path_parameters "/shops/{shopId}/items/{shopId}")
  /\ replace_path_parameters "/shops/{shopId}/items/{shopId}"
     = "/shops/" ++ Plain.lookup_text "shopId" ++ "/items/"
       ++ Plain.lookup_text "shopId"
  /\ Plain.lookup_text "shopId"
     = ("${trackedValues.shopId || trackedValues.shopid || 'shopId'}" : str).
Proof.
  split; [reflexivity|]. split.
  - exact (proj1 (replace_path_parameters_resolves
                    "/shops/{shopId}/items/{shopId}" eq_refl)).
  - split; reflexivity.
Defined.

(** C6 as the specification words it fails: braces around text that is no
    run of word characters stay in the resolved path. *)
Lemma hyphen_placeholder_kept :
  replace_path_parameters "/items/{item-id}" = ("/items/{item-id}" : str)
  /\ infix_of ("{" ++ "item-id" ++ "}") (replace_path_parameters "/items/{item-id}").
Proof.
  split; [reflexivity|].
  exists (list_ascii_of_string "/items/"), []. reflexivity.
Qed.

(* ================================================================= *)
(** ** A property of a type outside the six names *)

(** C7.  At the schema whose one property has the type [uuid] and no
    default, body synthesis writes no line for the property, where the
    string branch would write the placeholder literal that it writes when
    the type is absent: the body text is empty, and the endpoint still
    passes the undeclared [body0] to the request. *)
Theorem unrecognized_type_dropped :
  body_part "tag" (VDict [("type" : str, VStr "uuid")]) = Ok None
  /\ body_part "tag" (VDict []) = Ok (Some ("        tag: 'tag_value'" : str))
  /\ generate_request_body Samples.tagged_schema "body0" = Ok []
  /\ request_body 0 "POST" Samples.tagged_operation = Ok ("body0" : str, [])
  /\ request_code 0 "POST" "body0"
     = ("
    const res0 = http.post(url0, JSON.stringify(body0), { headers: headers0 });" : str).
Proof. repeat split; reflexivity. Qed.

(* ================================================================= *)
(** ** The first and the last lines of the script *)

(** X20.  Every script the assembler returns begins with the line that
    imports the HTTP client and ends with an empty line, the comment and
    the call of the pause between requests, and the closing brace of the
    test function. *)
Theorem generate_k6_script_frame :
  forall (self : OpenAPIToK6) (script : str),
    generate_k6_script self = Ok script ->
    (exists rest, script = Plain.script_start ++ rest)
    /\ exists body, script = body ++ Plain.script_end.
Proof.
  intros self script. unfold generate_k6_script, script_parts.
  destruct (server_url (spec self)) as [url|]; cbn [bind]; [|discriminate].
  destruct url as [| | |u| |]; try discriminate.
  destruct (endpoint_blocks 0 (endpoints self)) as [blocks|]; cbn [bind];
    [|discriminate].
  intros E. apply Ok_inj in E. subst script. split.
  - unfold preamble. cbn [app]. rewrite join_cons by discriminate.
    eexists. unfold Plain.script_start. rewrite app_assoc. reflexivity.
  - exists (join nl (preamble u ++ blocks)).
    rewrite (app_assoc (preamble u) blocks trailer).
    rewrite join_app; [reflexivity| |discriminate].
    unfold preamble. discriminate.
Qed.

Lemma generate_k6_script_frame_witness :
  exists script self',
    generate (init Samples.users_spec None) = Ok (script, self')
    /\ (exists rest, script = Plain.script_start ++ rest)
    /\ exists body, script = body ++ Plain.script_end.
Proof.
  destruct (generate (init Samples.users_spec None)) as [[script self']|e] eqn:E;
    [|discriminate E].
  exists script, self'. split; [reflexivity|].
  apply (generate_k6_script_frame self').
  unfold generate in E.
  destruct (parse_spec (init Samples.users_spec None)) as [s1|]; cbn [bind] in E;
    [|discriminate E].
  destruct (generate_k6_script s1) as [t|] eqn:G; cbn [bind] in E; [|discriminate E].
  apply Ok_inj in E. injection E as <- <-. exact G.
Defined.
